(** * Answer-sheet generator: layout engine, sheet renderer and collator

    A shallow embedding of [generate_answer_sheets.py].  Python integers are
    [Z], Python lists are [list] with Python's indexing and slicing written
    out, exceptions are the [Raise] branch of [result], the dictionary
    [boxes_by_q] is a [gmap], and the ReportLab canvas is the list of drawing
    operations issued on it.  Lengths are Python floats in the source; here
    they are exact rationals ([Q]), so every statement about coordinates is a
    statement about the arithmetic the source writes down, without binary64
    rounding.  Strings are ASCII. *)

From Stdlib Require Import ZArith QArith Qround Lia Lqa.
From Stdlib Require Import Ascii String.
From stdpp Require Import base list gmap strings sorting pretty.

Local Open Scope Z_scope.

(** ** Python primitives *)

Inductive exn : Type :=
  | SystemExit (msg : string)
  | ValueError
  | IndexError
  | KeyError
  | ZeroDivisionError
  | FileNotFoundError
  | OutOfFuel.

Inductive result (A : Type) : Type :=
  | Ok (a : A)
  | Raise (e : exn).
Arguments Ok {A} a.
Arguments Raise {A} e.

#[global] Instance result_ret : MRet result := fun A a => Ok a.
#[global] Instance result_bind : MBind result := fun A B k r =>
  match r with
  | Ok a => k a
  | Raise e => Raise e
  end.

(** [mapM f l] is the list comprehension [[f(x) for x in l]]: the first
    exception raised by [f] ends it. *)
Fixpoint mapM {A B} (f : A -> result B) (l : list A) : result (list B) :=
  match l with
  | [] => Ok []
  | x :: l' => y ← f x; ys ← mapM f l'; Ok (y :: ys)
  end.

(** [l[i]] with Python's negative indices. *)
Definition py_nth {A} (l : list A) (i : Z) : result A :=
  let n := Z.of_nat (length l) in
  let j := if i <? 0 then i + n else i in
  if (0 <=? j) && (j <? n)
  then match l !! Z.to_nat j with Some x => Ok x | None => Raise IndexError end
  else Raise IndexError.

(** [l[:n]] with Python's negative bound. *)
Definition py_take {A} (l : list A) (n : Z) : list A :=
  if n <? 0 then take (Z.to_nat (Z.of_nat (length l) + n)) l
  else take (Z.to_nat n) l.

(** [range(n)]: empty when [n <= 0]. *)
Definition range (n : Z) : list Z := seqZ 0 n.

(** [l[i % len(l)]]: the modulus by an empty list's length raises. *)
Definition py_mod_nth {A} (l : list A) (i : Z) : result A :=
  if Z.of_nat (length l) =? 0 then Raise ZeroDivisionError
  else py_nth l (i mod Z.of_nat (length l)).

(** [l.index(x)]: position of the first occurrence. *)
Fixpoint py_index (l : list string) (x : string) : result Z :=
  match l with
  | [] => Raise ValueError
  | y :: l' => if String.eqb y x then Ok 0
               else i ← py_index l' x; Ok (i + 1)
  end.

(** *** Strings *)

Definition is_digit (c : ascii) : bool :=
  let n := nat_of_ascii c in (48 <=? n)%nat && (n <=? 57)%nat.

Definition is_space (c : ascii) : bool :=
  let n := nat_of_ascii c in
  ((9 <=? n)%nat && (n <=? 13)%nat) || ((28 <=? n)%nat && (n <=? 32)%nat).

Definition upper_ascii (c : ascii) : ascii :=
  let n := nat_of_ascii c in
  if (97 <=? n)%nat && (n <=? 122)%nat then ascii_of_nat (n - 32) else c.

Definition lower_ascii (c : ascii) : ascii :=
  let n := nat_of_ascii c in
  if (65 <=? n)%nat && (n <=? 90)%nat then ascii_of_nat (n + 32) else c.

Fixpoint str_map (f : ascii -> ascii) (s : string) : string :=
  match s with
  | EmptyString => EmptyString
  | String c s' => String (f c) (str_map f s')
  end.

(** [s.upper()] and [s.lower()]. *)
Definition upper : string -> string := str_map upper_ascii.
Definition lower : string -> string := str_map lower_ascii.

Fixpoint str_forall (p : ascii -> bool) (s : string) : bool :=
  match s with
  | EmptyString => true
  | String c s' => p c && str_forall p s'
  end.

(** [s.isdigit()]: non-empty and digits only. *)
Definition isdigit (s : string) : bool :=
  match s with
  | EmptyString => false
  | _ => str_forall is_digit s
  end.

Definition digit_val (c : ascii) : Z := Z.of_nat (nat_of_ascii c) - 48.

Fixpoint int_digits (acc : Z) (s : string) : Z :=
  match s with
  | EmptyString => acc
  | String c s' => int_digits (10 * acc + digit_val c) s'
  end.

(** The digits of an integer literal, its single underscores between
    digits dropped; [None] when the literal is malformed. *)
Fixpoint literal_digits (after_digit : bool) (s : string) : option string :=
  match s with
  | EmptyString => if after_digit then Some EmptyString else None
  | String c s' =>
      if is_digit c then String c <$> literal_digits true s'
      else if Ascii.eqb c "_" && after_digit then literal_digits false s'
      else None
  end.

Definition int_unsigned (s : string) : result Z :=
  match literal_digits false s with
  | Some d => Ok (int_digits 0 d)
  | None => Raise ValueError
  end.

(** [int(s)] on a stripped string: an optional sign, then decimal digits;
    anything else is a [ValueError]. *)
Definition py_int (s : string) : result Z :=
  match s with
  | String "-" s' => n ← int_unsigned s'; Ok (- n)
  | String "+" s' => int_unsigned s'
  | _ => int_unsigned s
  end.

Fixpoint lstrip (s : string) : string :=
  match s with
  | String c s' => if is_space c then lstrip s' else s
  | EmptyString => EmptyString
  end.

Fixpoint rstrip (s : string) : string :=
  match s with
  | EmptyString => EmptyString
  | String c s' =>
      match rstrip s' with
      | EmptyString => if is_space c then EmptyString else String c EmptyString
      | r => String c r
      end
  end.

(** [s.strip()]. *)
Definition strip (s : string) : string := rstrip (lstrip s).

(** [s.split(",")]: always at least one field. *)
Fixpoint split_comma (s : string) : list string :=
  match s with
  | EmptyString => [EmptyString]
  | String c s' =>
      if Ascii.eqb c "," then EmptyString :: split_comma s'
      else match split_comma s' with
           | f :: fs => String c f :: fs
           | [] => [String c EmptyString]
           end
  end.

Definition nonempty (s : string) : bool :=
  match s with EmptyString => false | _ => true end.

(** ** Helper functions of the generator *)

Definition parse_csv (s : string) : list string :=
  strip <$> filter (fun x => nonempty (strip x) = true) (split_comma s).

Definition ascii_uppercase : string := "ABCDEFGHIJKLMNOPQRSTUVWXYZ".

Definition letters : list string :=
  (fun c => String c EmptyString) <$> list_ascii_of_string ascii_uppercase.

(** The [while len(out) < n] loop of [option_labels]; [fuel] bounds the
    number of iterations. *)
Fixpoint labels_loop (fuel : nat) (n : Z) (out : list string) (i : Z)
  : result (list string) :=
  if Z.of_nat (length out) <? n then
    match fuel with
    | O => Raise OutOfFuel
    | S fuel' =>
        a ← py_nth letters (i / 26);
        b ← py_nth letters (i mod 26);
        labels_loop fuel' n (out ++ [(a ++ b)%string]) (i + 1)
    end
  else Ok out.

Definition option_labels (n : Z) : result (list string) :=
  if n <=? 26 then Ok (py_take letters n)
  else out ← labels_loop (Z.to_nat n) n letters 0; Ok (py_take out n).

Definition parse_per_question_counts (spec : string) (num_questions : Z)
  : result (list Z) :=
  let raw := parse_csv spec in
  counts ← mapM py_int raw;
  mapM (fun i => py_mod_nth counts i) (range num_questions).

Definition parse_answer_key (spec : string) (num_questions : Z)
  : result (list string) :=
  let raw := parse_csv spec in
  mapM (fun i => py_mod_nth raw i) (range num_questions).

(** ** Page geometry *)

Local Open Scope Q_scope.

(** ReportLab's units: one point is 1/72 inch, [mm = 72 / 25.4] points. *)
Definition mm : Q := 720 # 254.

(** ReportLab's page sizes [A4 = (210*mm, 297*mm)] and
    [letter = (8.5*inch, 11*inch)], in points. *)
Definition PAPERS (paper : string) : result (Q * Q) :=
  if String.eqb paper "A4" then Ok (210 * mm, 297 * mm)
  else if String.eqb paper "LETTER" then Ok (612, 792)
  else Raise KeyError.

Record Box : Type := mkBox {
  q : Z;
  opt : Z;
  x_pt : Q;
  y_pt : Q;
  w_pt : Q;
  h_pt : Q
}.

Record Layout : Type := mkLayout {
  paper : string;
  title : string;
  page_width_pt : Q;
  page_height_pt : Q;
  num_questions : Z;
  per_question_option_counts : list Z;
  margin_pt : Q;
  size_pt : Q;
  box_size_pt : Q;
  box_gap_y_pt : Q;
  opt_label_gap_pt : Q;
  boxes : list Box;
  student_id_print : Q * Q;
  answer_key : list Z;
  question_prefix : option string
}.

(** The three assignments [main] makes into the layout dictionary. *)
Definition set_answer_key (l : Layout) (key : list Z) : Layout :=
  mkLayout (paper l) (title l) (page_width_pt l) (page_height_pt l)
    (num_questions l) (per_question_option_counts l) (margin_pt l) (size_pt l)
    (box_size_pt l) (box_gap_y_pt l) (opt_label_gap_pt l) (boxes l)
    (student_id_print l) key (question_prefix l).

Definition set_question_prefix (l : Layout) (p : string) : Layout :=
  mkLayout (paper l) (title l) (page_width_pt l) (page_height_pt l)
    (num_questions l) (per_question_option_counts l) (margin_pt l) (size_pt l)
    (box_size_pt l) (box_gap_y_pt l) (opt_label_gap_pt l) (boxes l)
    (student_id_print l) (answer_key l) (Some p).

Definition set_title (l : Layout) (t : string) : Layout :=
  mkLayout (paper l) t (page_width_pt l) (page_height_pt l)
    (num_questions l) (per_question_option_counts l) (margin_pt l) (size_pt l)
    (box_size_pt l) (box_gap_y_pt l) (opt_label_gap_pt l) (boxes l)
    (student_id_print l) (answer_key l) (question_prefix l).

(** [max(l)] of a list of integers; [ValueError] on the empty list. *)
Definition py_max (l : list Z) : result Z :=
  match l with
  | [] => Raise ValueError
  | x :: l' => Ok (foldl Z.max x l')
  end.

(** [int(math.ceil(a / b))] on integers: the true quotient, rounded
    towards plus infinity. *)
Definition ceil_div (a b : Z) : result Z :=
  if (b =? 0)%Z then Raise ZeroDivisionError
  else Ok (Qceiling (inject_Z a / inject_Z b)).

(** [int(a // b)] on numbers. *)
Definition floor_div (a b : Q) : result Z :=
  if Qeq_bool b 0 then Raise ZeroDivisionError else Ok (Qfloor (a / b)).

(** The arguments of [compute_layout]. *)
Record layout_args : Type := mkArgs {
  a_paper : string;
  a_title : string;
  a_num_questions : Z;
  a_per_q_counts : list Z;
  a_columns : Z;
  a_force_columns : bool;
  a_row_gap_mm : Q;
  a_col_gap_mm : Q;
  a_box_size_mm : Q
}.

Section layout.
Variable a : layout_args.
Variables W H : Q.

Definition margin : Q := 12 * mm.
Definition marker_size : Q := 9 * mm.
Definition box_size : Q := a_box_size_mm a * mm.
Definition box_gap_y : Q := 4 * mm.
Definition opt_label_gap : Q := (25 # 10) * mm.
Definition question_gap_y : Q := 6 * mm + a_row_gap_mm a * mm.
Definition col_gap_x : Q := 10 * mm + a_col_gap_mm a * mm.
Definition top_title_gap : Q := 14 * mm.

Definition usable_top : Q := H - margin.
Definition usable_bottom : Q := margin.
Definition usable_left : Q := margin.
Definition usable_right : Q := W - margin.

Definition top_reserved : Q :=
  marker_size + 6 * mm + 10 * mm + 6 * mm + 10 * mm + 4 * mm + 2 * mm.
Definition content_top : Q := (H - margin) - top_reserved.
Definition available_h : Q := content_top - usable_bottom.

Definition q_block_h (max_k : Z) : Q :=
  inject_Z max_k * box_size + inject_Z (max_k - 1) * box_gap_y + question_gap_y.

(** Lines 121-130: the rows that fit, then the columns used and the rows. *)
Definition grid (max_k : Z) : result (Z * Z) :=
  rows_fit ← floor_div available_h (q_block_h max_k);
  if (rows_fit <=? 0)%Z then Raise (SystemExit "Layout too tight.")
  else if a_force_columns a then
    let cols_used := a_columns a in
    rows ← ceil_div (a_num_questions a) cols_used;
    Ok (cols_used, rows)
  else
    c ← ceil_div (a_num_questions a) rows_fit;
    let cols_used := Z.min (a_columns a) c in
    rows ← ceil_div (a_num_questions a) cols_used;
    Ok (cols_used, rows).

Definition col_width (cols_used : Z) : Q :=
  (usable_right - usable_left - inject_Z (cols_used - 1) * col_gap_x)
  / inject_Z cols_used.

(** Lines 144-146: the boxes of one question. *)
Definition question_boxes (qn : Z) (k : Z) (col_x box_y_top : Q) : list Box :=
  (fun oi =>
     let yy := box_y_top - inject_Z oi * (box_size + box_gap_y) in
     mkBox qn oi col_x yy box_size box_size) <$> range k.

(** Lines 137-146: the loop over the columns of row [r], with its [break]. *)
Fixpoint col_loop (max_k cols_used r : Z) (cs : list Z) : result (list Box) :=
  match cs with
  | [] => Ok []
  | cidx :: cs' =>
      let y_row_top := content_top - inject_Z r * q_block_h max_k in
      let qn := (r * cols_used + cidx + 1)%Z in
      if (qn >? a_num_questions a)%Z then Ok []
      else
        k ← py_nth (a_per_q_counts a) (qn - 1);
        let box_y_top := y_row_top - 8 * mm in
        let col_x :=
          usable_left + inject_Z cidx * (col_width cols_used + col_gap_x) in
        rest ← col_loop max_k cols_used r cs';
        Ok (question_boxes qn k col_x box_y_top ++ rest)
  end.

(** Lines 135-146: the loop over the rows. *)
Fixpoint row_loop (max_k cols_used : Z) (rs : list Z) : result (list Box) :=
  match rs with
  | [] => Ok []
  | r :: rs' =>
      bs ← col_loop max_k cols_used r (range cols_used);
      rest ← row_loop max_k cols_used rs';
      Ok (bs ++ rest)
  end.

Definition layout_body : result Layout :=
  max_k ← py_max (a_per_q_counts a);
  '(cols_used, rows) ← grid max_k;
  bs ← row_loop max_k cols_used (range rows);
  Ok {| paper := a_paper a;
        title := a_title a;
        page_width_pt := W;
        page_height_pt := H;
        num_questions := a_num_questions a;
        per_question_option_counts := a_per_q_counts a;
        margin_pt := margin;
        size_pt := marker_size;
        box_size_pt := box_size;
        box_gap_y_pt := box_gap_y;
        opt_label_gap_pt := opt_label_gap;
        boxes := bs;
        student_id_print := (usable_left, usable_top - top_title_gap - 2 * mm);
        answer_key := [];
        question_prefix := None |}.
End layout.

Definition compute_layout (a : layout_args) : result Layout :=
  '(W, H) ← PAPERS (a_paper a);
  layout_body a W H.

(** ** Sheet renderer *)

(** The operations issued on the ReportLab canvas, in order.  [rect]
    carries its [fill] and [stroke] flags ([c.rect(x, y, w, h)] is
    [fill=0, stroke=1]). *)
Inductive op : Type :=
  | setFillColor_black
  | rect (x y w h : Q) (fill stroke : bool)
  | setFont (name : string) (size : Z)
  | drawString (x y : Q) (text : string)
  | drawRightString (x y : Q) (text : string)
  | drawCentredString (x y : Q) (text : string)
  | setLineWidth (w : Z)
  | line (x1 y1 x2 y2 : Q)
  | showPage
  | save.

Definition draw_corner_markers (W H margin marker_size : Q) : list op :=
  setFillColor_black ::
  ((fun '(x, y) => rect x y marker_size marker_size true false) <$>
     [ (margin, margin);
       (W - margin - marker_size, margin);
       (margin, H - margin - marker_size);
       (W - margin - marker_size, H - margin - marker_size) ]).

(** [str(n)] for an integer. *)
Definition str_of_Z (n : Z) : string := pretty n.

(** [s.rstrip(".")]. *)
Fixpoint rstrip_dots (s : string) : string :=
  match s with
  | EmptyString => EmptyString
  | String c s' =>
      match rstrip_dots s' with
      | EmptyString => if Ascii.eqb c "." then EmptyString else String c EmptyString
      | r => String c r
      end
  end.

(** [boxes_by_q.setdefault(int(b["q"]), []).append(b)] over the boxes. *)
Definition group_by_q (bs : list Box) : gmap Z (list Box) :=
  foldl (fun m b => <[q b := default [] (m !! q b) ++ [b]]> m) ∅ bs.

(** [l.sort(key=lambda x: x["opt"])]: a stable sort. *)
Fixpoint insert_by_opt (b : Box) (l : list Box) : list Box :=
  match l with
  | [] => [b]
  | c :: l' => if (opt b <=? opt c)%Z then b :: c :: l'
               else c :: insert_by_opt b l'
  end.

Definition sort_by_opt (l : list Box) : list Box := foldr insert_by_opt [] l.

(** [sorted(d.keys())]. *)
Definition sorted_keys (m : gmap Z (list Box)) : list Z :=
  merge_sort Z.le (elements (dom m)).

(** The header fields of a sheet. *)
Record header : Type := mkHeader {
  course_name : string;
  professor : string;
  exam_date : string
}.

Section render.
Variable today : string.
Variable layout : Layout.
Variable student_id : option string.
Variable fill_solution : bool.
Variable hd : header.

(** Lines 234-251: one box with its label. *)
Definition draw_box (qn : Z) (labels : list string) (b : Box) : result (list op) :=
  let outline := [rect (x_pt b) (y_pt b) (w_pt b) (h_pt b) false true] in
  filled ←
    (if fill_solution then
       ans ← py_nth (answer_key layout) (qn - 1);
       Ok (if (ans =? opt b)%Z
           then [rect (x_pt b) (y_pt b) (w_pt b) (h_pt b) true false]
           else [])
     else Ok []);
  lab ← py_nth labels (opt b);
  Ok (outline ++ filled ++
      [drawString (x_pt b + w_pt b + opt_label_gap_pt layout)
                  (y_pt b + (5 # 10) * mm)
                  ("(" ++ lab ++ ")")%string]).

(** Lines 219-251: one question. *)
Definition draw_question (qn : Z) (bxs : list Box) : result (list op) :=
  first ← py_nth bxs 0;
  let prefix := default EmptyString (question_prefix layout) in
  let qlabel :=
    if nonempty prefix
    then (rstrip_dots prefix ++ "." ++ str_of_Z qn)%string
    else str_of_Z qn in
  let head :=
    [ setFont "Times-Bold" 14;
      drawString (x_pt first) (y_pt first + h_pt first + (25 # 10) * mm)
                 ("Q " ++ qlabel)%string;
      setFont "Times-Roman" 12 ] in
  k ← py_nth (per_question_option_counts layout) (qn - 1);
  labels ← option_labels k;
  body ← mapM (draw_box qn labels) bxs;
  Ok (head ++ concat body).

Definition header_ops (W H : Q) : list op :=
  let exam_date := if nonempty (exam_date hd) then exam_date hd else today in
  let margin := margin_pt layout in
  let marker_size := size_pt layout in
  let header_y := (H - margin) - marker_size - 6 * mm in
  let rule_y := header_y - 18 in
  let title_y := rule_y - 28 in
  draw_corner_markers W H margin marker_size ++
  [setFont "Times-Bold" 14] ++
  (if nonempty (course_name hd)
   then [drawString margin header_y (course_name hd)] else []) ++
  [setFont "Times-Roman" 12] ++
  (if nonempty (professor hd)
   then [drawRightString (W - margin) header_y (professor hd)] else []) ++
  [ drawRightString (W - margin) (header_y - 12) exam_date;
    setLineWidth 1;
    line margin rule_y (W - margin) rule_y;
    setFont "Times-Bold" 26;
    drawCentredString (W / 2) title_y (title layout) ] ++
  match student_id with
  | Some sid =>
      if nonempty sid
      then [ setFont "Times-Bold" 14;
             drawString margin (title_y - 18) ("Student ID: " ++ sid)%string ]
      else []
  | None => []
  end.

(** The operations drawn on the canvas when [render_sheet] returns. *)
Definition render_sheet : result (list op) :=
  '(W, H) ← PAPERS (paper layout);
  let boxes_by_q := sort_by_opt <$> group_by_q (boxes layout) in
  qs ← mapM (fun qn => draw_question qn (default [] (boxes_by_q !! qn)))
            (sorted_keys boxes_by_q);
  Ok (header_ops W H ++ concat qs ++ [showPage; save]).
End render.

(** *** The list objects behind lines 212-216

    [render_sheet] builds [boxes_by_q] from new list objects and sorts those
    in place.  Here the lists live in a heap of list objects, addressed by
    natural numbers, among them whatever existed before the call (the list
    [layout["boxes"]] included); [boxes_by_q] maps a question to the address
    of its list.  The box dictionaries themselves are only read. *)

(** [boxes_by_q.setdefault(int(b["q"]), []).append(b)]. *)
Definition setdefault_append (st : gmap Z nat * gmap nat (list Box)) (b : Box)
  : gmap Z nat * gmap nat (list Box) :=
  let '(d, h) := st in
  match d !! q b with
  | Some loc => (d, <[loc := default [] (h !! loc) ++ [b]]> h)
  | None => let loc := fresh (dom h) in (<[q b := loc]> d, <[loc := [b]]> h)
  end.

(** [boxes_by_q[q].sort(key=lambda x: x["opt"])], in place. *)
Definition sort_in_place (h : gmap nat (list Box)) (e : Z * nat)
  : gmap nat (list Box) :=
  alter sort_by_opt e.2 h.

(** Lines 212-216 on the heap [h]. *)
Definition group_and_sort (h : gmap nat (list Box)) (bs : list Box)
  : gmap Z nat * gmap nat (list Box) :=
  let '(d, h1) := foldl setdefault_append (∅, h) bs in
  (d, foldl sort_in_place h1 (map_to_list d)).

(** What [boxes_by_q[qn]] reads. *)
Definition read_group (st : gmap Z nat * gmap nat (list Box)) (qn : Z)
  : option (list Box) :=
  loc ← (st.1 !! qn); st.2 !! loc.

(** ** Collator: [main] *)

(** What a run does to the outside world, in order.  File-system calls,
    the LaTeX toolchain and the PDF merger are taken to succeed; the run's
    own exceptions end the trace where they are raised. *)
Inductive event : Type :=
  | makedirs (path : string)
  | write_layout_json (path : string) (l : Layout)
  | call_render_sheet (path : string) (l : Layout) (sid : option string)
      (fill : bool) (hd : header)
  | canvas_save (path : string) (ops : list op)
  | call_compile_cover_pdf (out_pdf tex : string) (hd : header)
      (sid cover_title : string)
  | copyfile (src dst : string)
  | call_merge_pdfs (out_pdf : string) (paths : list string)
  | tmpdir_create (path : string)
  | tmpdir_cleanup (path : string)
  | print (text : string).

(** A run: the events so far are threaded through, an exception keeps
    the events issued before it. *)
Record io (A : Type) : Type := Io { run : list event -> list event * result A }.
Arguments Io {A} run.
Arguments run {A} i tr.

#[global] Instance io_ret : MRet io := fun A a => Io (fun tr => (tr, Ok a)).
#[global] Instance io_bind : MBind io := fun A B k m =>
  Io (fun tr =>
        match run m tr with
        | (tr', Ok a) => run (k a) tr'
        | (tr', Raise e) => (tr', Raise e)
        end).

Definition emit (e : event) : io unit := Io (fun tr => (tr ++ [e], Ok tt)).
Definition lift {A} (r : result A) : io A := Io (fun tr => (tr, r)).

(** The parsed command line. *)
Record cli_args : Type := mkCli {
  arg_paper : string;
  arg_title : string;
  arg_course_name : string;
  arg_professor : string;
  arg_exam_date : string;
  arg_num_questions : Z;
  arg_options_per_question : string;
  arg_options_list : option string;
  arg_columns : Z;
  arg_force_columns : bool;
  arg_row_gap_mm : Q;
  arg_col_gap_mm : Q;
  arg_box_size_mm : Q;
  arg_student_id_start : Z;
  arg_student_id_count : Z;
  arg_answer_key : string;
  arg_outdir : string;
  arg_answer_sheet_prefix : option string;
  arg_cover_tex : option string;
  arg_cover_title : string;
  arg_no_cover : bool;
  arg_per_student : bool;
  arg_keep_temp : bool
}.

(** The ambient state a run reads: the date, the name the temporary
    directory gets, and whether the cover file exists. *)
Record env : Type := mkEnv {
  env_today : string;
  env_tmp_dir : string;
  env_cover_tex_exists : bool
}.

(** [os.path.join(a, b)]. *)
Definition path_join (a b : string) : string :=
  match b with
  | String "/" _ => b
  | _ => if nonempty a
         then if String.eqb (String.substring (String.length a - 1) 1 a) "/"
              then (a ++ b)%string else (a ++ "/" ++ b)%string
         else b
  end.

(** [f"{n:03d}"]: the sign counts in the width. *)
Definition fmt_03d (n : Z) : string :=
  let digits := pretty (Z.abs n) in
  let sign := if (n <? 0)%Z then "-"%string else EmptyString in
  let pad := (3 - String.length sign - String.length digits)%nat in
  (sign ++ String.concat EmptyString (replicate pad "0"%string) ++ digits)%string.

Definition enumerate {A} (l : list A) : list (Z * A) :=
  zip (seqZ 0 (Z.of_nat (length l))) l.

(** Line 488: token [i] of the answer key. *)
Definition resolve_token (per_q : list Z) (i : Z) (tok : string) : result Z :=
  if isdigit tok then py_int tok
  else k ← py_nth per_q i;
       labels ← option_labels k;
       py_index labels (upper tok).

(** Lines 487-490. *)
Definition resolve_key (per_q : list Z) (key_tokens : list string)
  : result (list Z) :=
  mapM (fun '(i, tok) => resolve_token per_q i tok) (enumerate key_tokens).

(** Lines 507-508: the check of entry [i]. *)
Definition check_entry (per_q : list Z) (e : Z * Z) : result unit :=
  let '(i, ans) := e in
  k ← py_nth per_q i;
  if (0 <=? ans)%Z && (ans <? k)%Z then Ok tt else Raise ValueError.

(** Lines 506-508. *)
Definition validate_key (per_q : list Z) (key : list Z) : result unit :=
  _ ← mapM (check_entry per_q) (enumerate key);
  Ok tt.

(** Lines 471-477. *)
Definition per_question_counts (args : cli_args) : result (list Z) :=
  match arg_options_list args with
  | Some ol =>
      if nonempty ol then
        per_q ← mapM py_int (parse_csv ol);
        if (Z.of_nat (length per_q) =? arg_num_questions args)%Z
        then Ok per_q else Raise ValueError
      else parse_per_question_counts (arg_options_per_question args)
             (arg_num_questions args)
  | None => parse_per_question_counts (arg_options_per_question args)
              (arg_num_questions args)
  end.

(** Lines 492-503. *)
Definition apply_prefix (args : cli_args) (l : Layout) : Layout :=
  let p :=
    match arg_answer_sheet_prefix args with
    | Some p0 =>
        let p1 := strip p0 in
        if String.eqb (String.substring (String.length p1 - 1) 1 p1) "."
        then String.substring 0 (String.length p1 - 1) p1 else p1
    | None => EmptyString
    end in
  let l1 := set_question_prefix l p in
  if nonempty p then set_title l1 (title l1 ++ " - " ++ p)%string else l1.

(** Lines 471-508: everything [main] computes before it writes or
    renders anything. *)
Definition prepare (args : cli_args) : result Layout :=
  per_q ← per_question_counts args;
  key_tokens ← parse_answer_key (arg_answer_key args) (arg_num_questions args);
  layout ← compute_layout
    (mkArgs (arg_paper args) (arg_title args) (arg_num_questions args) per_q
       (arg_columns args) (arg_force_columns args)
       (arg_row_gap_mm args) (arg_col_gap_mm args) (arg_box_size_mm args));
  key ← resolve_key per_q key_tokens;
  let layout := apply_prefix args (set_answer_key layout key) in
  _ ← validate_key per_q (answer_key layout);
  Ok layout.

Section main.
Variable ev : env.
Variable args : cli_args.

Definition exam_date_resolved : string :=
  if nonempty (arg_exam_date args) then arg_exam_date args else env_today ev.

Definition hdr : header :=
  mkHeader (arg_course_name args) (arg_professor args) exam_date_resolved.

Definition do_render (path : string) (l : Layout) (sid : option string)
    (fill : bool) : io unit :=
  _ ← emit (call_render_sheet path l sid fill hdr);
  ops ← lift (render_sheet (env_today ev) l sid fill hdr);
  emit (canvas_save path ops).

Definition do_cover : bool :=
  match arg_cover_tex args with
  | Some _ => negb (arg_no_cover args)
  | None => false
  end.

(** Lines 538-572: the loop over the student identifiers. *)
Fixpoint student_loop (l : Layout) (sids : list Z)
    (answer_paths cover_paths : list string)
  : io (list string * list string) :=
  match sids with
  | [] => mret (answer_paths, cover_paths)
  | sid_int :: sids' =>
      let sid := fmt_03d sid_int in
      let ans_pdf_tmp :=
        path_join (env_tmp_dir ev) ("answer_sheet_" ++ sid ++ ".pdf") in
      _ ← do_render ans_pdf_tmp l (Some sid) false;
      let answer_paths := answer_paths ++ [ans_pdf_tmp] in
      let cover_pdf_tmp :=
        path_join (env_tmp_dir ev) ("cover_sheet_" ++ sid ++ ".pdf") in
      cover_paths ←
        (if do_cover then
           _ ← emit (call_compile_cover_pdf cover_pdf_tmp
                       (default EmptyString (arg_cover_tex args)) hdr sid
                       (arg_cover_title args));
           mret (cover_paths ++ [cover_pdf_tmp])
         else mret cover_paths);
      _ ← (if arg_per_student args then
             _ ← emit (copyfile ans_pdf_tmp
                         (path_join (arg_outdir args)
                            ("answer_sheet_" ++ sid ++ ".pdf")));
             match do_cover, last cover_paths with
             | true, Some cp =>
                 emit (copyfile cp
                         (path_join (arg_outdir args)
                            ("cover_sheet_" ++ sid ++ ".pdf")))
             | _, _ => mret tt
             end
           else mret tt);
      student_loop l sids' answer_paths cover_paths
  end.

Definition main : io unit :=
  _ ← emit (makedirs (arg_outdir args));
  _ ← emit (makedirs "scans");
  layout ← lift (prepare args);
  _ ← emit (write_layout_json (path_join (arg_outdir args) "layout.json") layout);
  _ ← do_render (path_join (arg_outdir args) "answer_sheet_solution.pdf")
        layout None true;
  _ ← (match arg_cover_tex args with
       | Some _ => if env_cover_tex_exists ev then mret tt
                   else lift (Raise FileNotFoundError)
       | None => mret tt
       end);
  _ ← emit (tmpdir_create (env_tmp_dir ev));
  '(answer_paths, cover_paths) ←
    student_loop layout
      (seqZ (arg_student_id_start args) (arg_student_id_count args)) [] [];
  _ ← (match answer_paths with
       | [] => mret tt
       | _ => emit (call_merge_pdfs
                      (path_join (arg_outdir args) "answer_sheets_all.pdf")
                      answer_paths)
       end);
  _ ← (match do_cover, cover_paths with
       | true, _ :: _ => emit (call_merge_pdfs
                      (path_join (arg_outdir args) "cover_sheets_all.pdf")
                      cover_paths)
       | _, _ => mret tt
       end);
  _ ← (if arg_keep_temp args
       then emit (print ("Keeping intermediate PDFs in: " ++ env_tmp_dir ev))
       else emit (tmpdir_cleanup (env_tmp_dir ev)));
  emit (print "Done.").
End main.

(** ** Cover sheets: escaping for LaTeX *)

(** The dictionary [repl] of [_latex_escape]. *)
Definition repl_table : list (ascii * string) :=
  [ ("\"%char, "\textbackslash{}");
    ("&"%char, "\&");
    ("%"%char, "\%");
    ("$"%char, "\$");
    ("#"%char, "\#");
    ("_"%char, "\_");
    ("{"%char, "\{");
    ("}"%char, "\}");
    ("~"%char, "\textasciitilde{}");
    ("^"%char, "\textasciicircum{}") ].

(** [repl.get(ch, ch)]. *)
Definition repl_get (ch : ascii) : string :=
  match List.find (fun p => Ascii.eqb (fst p) ch) repl_table with
  | Some p => snd p
  | None => String ch EmptyString
  end.

(** [_latex_escape(s)]; [None] stands for Python's [None]. *)
Definition _latex_escape (s : option string) : string :=
  match s with
  | None => EmptyString
  | Some s =>
      let out := repl_get <$> list_ascii_of_string s in
      String.concat EmptyString out
  end.
(** ** The statements' vocabulary *)

Local Open Scope Z_scope.

(** Label number [i]: one letter below 26, then two letters, the first
    one changing every 26 labels. *)
Definition letter_at (k : Z) : string :=
  String (ascii_of_nat (65 + Z.to_nat k)) EmptyString.

Definition label_of (i : Z) : string :=
  if i <? 26 then letter_at i
  else (letter_at ((i - 26) / 26) ++ letter_at ((i - 26) mod 26))%string.

(** The number of options of question [qn], questions counted from 1. *)
Definition count_at (counts : list Z) (qn : Z) : Z :=
  default 0 (counts !! Z.to_nat (qn - 1)).

(** The boxes of question [qn] in a grid of [cols] columns filled row by
    row: row [(qn - 1) / cols], column [(qn - 1) mod cols]. *)
Definition placed (a : layout_args) (W H : Q) (max_k cols qn : Z) : list Box :=
  question_boxes a qn (count_at (a_per_q_counts a) qn)
    (usable_left + inject_Z ((qn - 1) mod cols) * (col_width a W cols + col_gap_x a))%Q
    (content_top H - inject_Z ((qn - 1) / cols) * q_block_h a max_k - 8 * mm)%Q.

(** How many boxes of a list carry the pair (question [qn], option [o]). *)
Definition box_count (bs : list Box) (qn o : Z) : nat :=
  length (filter (fun b => q b = qn /\ opt b = o) bs).

(** The pairs (question, option) that [N] questions with the given
    option counts imply. *)
Definition has_option (N : Z) (counts : list Z) (qn o : Z) : bool :=
  (1 <=? qn) && (qn <=? N) && (0 <=? o) && (o <? count_at counts qn).

(** Box completeness: one box for every implied pair, none for any other. *)
Definition box_complete (N : Z) (counts : list Z) (bs : list Box) : Prop :=
  forall qn o,
    box_count bs qn o = if has_option N counts qn o then 1%nat else 0%nat.

Definition sum_counts (counts : list Z) : Z := foldr Z.add 0 counts.



(** The rectangles a sheet draws filled: [c.rect(..., fill=1, stroke=0)]. *)
Definition is_filled (o : op) : bool :=
  match o with
  | rect _ _ _ _ true _ => true
  | _ => false
  end.

Definition filled_rects (ops : list op) : list op :=
  filter (fun o => is_filled o = true) ops.

Definition fill_rect (b : Box) : op :=
  rect (x_pt b) (y_pt b) (w_pt b) (h_pt b) true false.

(** The four corner markers of a sheet. *)
Definition marker_rects (W H : Q) (l : Layout) : list op :=
  tail (draw_corner_markers W H (margin_pt l) (size_pt l)).

(** The invariants of a layout the renderer relies on: box completeness,
    a count for every question, and counts the labelling scheme covers. *)
Definition layout_wf (l : Layout) : Prop :=
  box_complete (num_questions l) (per_question_option_counts l) (boxes l) /\
  num_questions l <= Z.of_nat (length (per_question_option_counts l)) /\
  forall qn, 1 <= qn <= num_questions l ->
    count_at (per_question_option_counts l) qn <= 702.

(** A valid answer key: one option index per question, within its count. *)
Definition key_valid (l : Layout) : Prop :=
  forall qn, 1 <= qn <= num_questions l ->
    exists ans, py_nth (answer_key l) (qn - 1) = Ok ans /\
                0 <= ans < count_at (per_question_option_counts l) qn.

(** Entry [i] of a resolved answer key lies within question [i]'s count. *)
Definition entry_in_range (per_q : list Z) (i : nat) (ans : Z) : Prop :=
  exists k, per_q !! i = Some k /\ 0 <= ans < k.

Definition is_render_call (e : event) : bool :=
  match e with
  | call_render_sheet _ _ _ _ _ => true
  | _ => false
  end.

Definition is_output (e : event) : bool :=
  match e with
  | write_layout_json _ _ | canvas_save _ _ | call_merge_pdfs _ _ => true
  | _ => false
  end.

(** The layout [main] works with once the key is resolved. *)
Definition keyed_layout (args : cli_args) (l : Layout) (key : list Z) : Layout :=
  apply_prefix args (set_answer_key l key).

(** The arguments [main] passes to [compute_layout]. *)
Definition layout_args_of (args : cli_args) (per_q : list Z) : layout_args :=
  mkArgs (arg_paper args) (arg_title args) (arg_num_questions args) per_q
    (arg_columns args) (arg_force_columns args)
    (arg_row_gap_mm args) (arg_col_gap_mm args) (arg_box_size_mm args).

(** A computation only ever appends to the trace. *)
Definition extends {A} (m : io A) : Prop :=
  forall tr, exists ext, (run m tr).1 = tr ++ ext.

(** The dictionary [d] of addresses and the heap [h] represent the
    dictionary of lists [m], leaving the objects of the heap [h0] (those
    that existed before the call) as they were. *)
Definition represents (h0 : gmap nat (list Box))
    (st : gmap Z nat * gmap nat (list Box)) (m : gmap Z (list Box)) : Prop :=
  (forall loc, loc ∈ dom h0 -> st.2 !! loc = h0 !! loc) /\
  (forall qn loc, st.1 !! qn = Some loc ->
     (loc ∉ dom h0) /\ is_Some (m !! qn) /\ st.2 !! loc = m !! qn) /\
  (forall qn, st.1 !! qn = None -> m !! qn = None) /\
  (forall q1 q2 loc, st.1 !! q1 = Some loc -> st.1 !! q2 = Some loc -> q1 = q2).

(** The characters [_latex_escape] rewrites. *)
Definition is_special (ch : ascii) : bool :=
  existsb (fun p => Ascii.eqb (fst p) ch) repl_table.

Definition no_comma (s : string) : bool :=
  str_forall (fun c => negb (Ascii.eqb c ",")) s.

(** A token as [parse_csv] returns them: not empty, without a comma and
    without white space at either end. *)
Definition clean_token (tok : string) : Prop :=
  nonempty tok = true /\ strip tok = tok /\ no_comma tok = true.

(** Two box rectangles share no inner point: one lies left of, right of,
    below or above the other. *)
Definition disjoint_boxes (b1 b2 : Box) : Prop :=
  (x_pt b1 + w_pt b1 <= x_pt b2 \/ x_pt b2 + w_pt b2 <= x_pt b1 \/
   y_pt b1 + h_pt b1 <= y_pt b2 \/ y_pt b2 + h_pt b2 <= y_pt b1)%Q.


(** The paths of the sheets a run saves, in order. *)
Definition saved_paths (tr : list event) : list string :=
  omap (fun e => match e with canvas_save p _ => Some p | _ => None end) tr.

(** The merges of a run, in order: the output and the inputs of each. *)
Definition merges (tr : list event) : list (string * list string) :=
  omap (fun e => match e with
                 | call_merge_pdfs out ins => Some (out, ins)
                 | _ => None
                 end) tr.

(** The intermediate files of student number [sid]. *)
Definition answer_tmp (ev : env) (sid : Z) : string :=
  path_join (env_tmp_dir ev) ("answer_sheet_" ++ fmt_03d sid ++ ".pdf").

Definition cover_tmp (ev : env) (sid : Z) : string :=
  path_join (env_tmp_dir ev) ("cover_sheet_" ++ fmt_03d sid ++ ".pdf").

(** The sheets a run saves, in order: the path and the canvas operations
    of each. *)
Definition saves (tr : list event) : list (string * list op) :=
  omap (fun e => match e with
                 | canvas_save p ops => Some (p, ops)
                 | _ => None
                 end) tr.

(** The command line [args] with another [--answer-key]. *)
Definition with_answer_key (args : cli_args) (key : string) : cli_args :=
  mkCli (arg_paper args) (arg_title args) (arg_course_name args)
    (arg_professor args) (arg_exam_date args) (arg_num_questions args)
    (arg_options_per_question args) (arg_options_list args)
    (arg_columns args) (arg_force_columns args) (arg_row_gap_mm args)
    (arg_col_gap_mm args) (arg_box_size_mm args) (arg_student_id_start args)
    (arg_student_id_count args) key (arg_outdir args)
    (arg_answer_sheet_prefix args) (arg_cover_tex args) (arg_cover_title args)
    (arg_no_cover args) (arg_per_student args) (arg_keep_temp args).
(** * Properties *)

(** ** Python primitives *)

Lemma bind_Ok {A B} (r : result A) (k : A -> result B) (b : B) :
  r ≫= k = Ok b -> exists a, r = Ok a /\ k a = Ok b.
Proof. destruct r as [a|e]; [eauto | discriminate]. Qed.

Lemma py_nth_lookup {A} (l : list A) (i : nat) (x : A) :
  l !! i = Some x -> py_nth l (Z.of_nat i) = Ok x.
Proof.
  intros Hl. pose proof (lookup_lt_Some _ _ _ Hl) as Hlt. unfold py_nth.
  destruct (Z.ltb_spec (Z.of_nat i) 0) as [?|_]; [lia|].
  destruct (Z.leb_spec 0 (Z.of_nat i)) as [_|?]; [|lia].
  destruct (Z.ltb_spec (Z.of_nat i) (Z.of_nat (length l))) as [_|?]; [|lia].
  simpl. by rewrite Nat2Z.id, Hl.
Qed.

Lemma py_nth_nonneg {A} (l : list A) (i : Z) (x : A) :
  0 <= i -> py_nth l i = Ok x -> l !! Z.to_nat i = Some x.
Proof.
  intros Hi. unfold py_nth.
  destruct (Z.ltb_spec i 0) as [?|_]; [lia|].
  destruct (_ && _); [|discriminate].
  destruct (l !! Z.to_nat i); [congruence | discriminate].
Qed.

Lemma py_nth_fmap_seqZ {A} (f : Z -> A) (n i : Z) :
  0 <= i < n -> py_nth (f <$> seqZ 0 n) i = Ok (f i).
Proof.
  intros Hi. replace i with (Z.of_nat (Z.to_nat i)) at 1 by lia.
  apply py_nth_lookup. rewrite list_lookup_fmap, lookup_seqZ_lt by lia.
  simpl. f_equal. f_equal. lia.
Qed.

Lemma py_index_lookup (l : list string) (i : nat) (x : string) :
  NoDup l -> l !! i = Some x -> py_index l x = Ok (Z.of_nat i).
Proof.
  intros Hnd. revert i. induction Hnd as [|y l Hy Hnd IH]; intros i Hi.
  - by rewrite lookup_nil in Hi.
  - destruct i as [|i]; simpl in *.
    + injection Hi as ->. by rewrite String.eqb_refl.
    + destruct (String.eqb_spec y x) as [->|_].
      * exfalso. apply Hy. eapply list_elem_of_lookup_2; eauto.
      * rewrite (IH _ Hi). simpl. f_equal. lia.
Qed.

(** ** The labelling scheme *)

Ltac first26 k :=
  let m := fresh "m" in
  let Hm := fresh "Hm" in
  assert (exists m, k = Z.of_nat m /\ (m < 26)%nat) as (m & -> & Hm)
    by (exists (Z.to_nat k); lia);
  do 26 (destruct m as [|m]; [vm_compute; try reflexivity |]); try lia.

Lemma letters_nth (k : Z) : 0 <= k < 26 -> py_nth letters k = Ok (letter_at k).
Proof. intros Hk. first26 k. Qed.

Lemma letters_length : length letters = 26%nat.
Proof. reflexivity. Qed.

Lemma letters_label_of : letters = label_of <$> seqZ 0 26.
Proof. reflexivity. Qed.

Lemma letter_at_inj (j k : Z) :
  0 <= j < 26 -> 0 <= k < 26 -> letter_at j = letter_at k -> j = k.
Proof.
  intros Hj Hk Heq. unfold letter_at in Heq. injection Heq as Heq.
  apply (f_equal nat_of_ascii) in Heq.
  rewrite !nat_ascii_embedding in Heq by lia. lia.
Qed.

Lemma label_of_inj (i j : Z) :
  0 <= i < 702 -> 0 <= j < 702 -> label_of i = label_of j -> i = j.
Proof.
  intros Hi Hj. unfold label_of.
  destruct (Z.ltb_spec i 26), (Z.ltb_spec j 26); simpl.
  - apply letter_at_inj; lia.
  - discriminate.
  - discriminate.
  - intros Heq. injection Heq as H1 H2.
    assert (0 <= (i - 26) / 26 < 26) by (split; [apply Z.div_pos | apply Z.div_lt_upper_bound]; lia).
    assert (0 <= (j - 26) / 26 < 26) by (split; [apply Z.div_pos | apply Z.div_lt_upper_bound]; lia).
    pose proof (Z.mod_pos_bound (i - 26) 26 ltac:(lia)).
    pose proof (Z.mod_pos_bound (j - 26) 26 ltac:(lia)).
    assert ((i - 26) / 26 = (j - 26) / 26).
    { apply letter_at_inj; [lia | lia |]. unfold letter_at. by f_equal. }
    assert ((i - 26) mod 26 = (j - 26) mod 26).
    { apply letter_at_inj; [lia | lia |]. unfold letter_at. by f_equal. }
    pose proof (Z.div_mod (i - 26) 26 ltac:(lia)).
    pose proof (Z.div_mod (j - 26) 26 ltac:(lia)). lia.
Qed.

Lemma labels_loop_spec (fuel : nat) (n : Z) (out : list string) (i : Z) :
  0 <= i -> Z.of_nat (length out) = 26 + i -> n <= 702 ->
  n - (26 + i) <= Z.of_nat fuel ->
  labels_loop fuel n out i
  = Ok (out ++ (label_of <$> seqZ (26 + i) (n - (26 + i)))).
Proof.
  revert out i. induction fuel as [|fuel IH]; intros out i Hi Hlen Hn Hfuel.
  - simpl. destruct (Z.ltb_spec (Z.of_nat (length out)) n); [lia|].
    rewrite seqZ_nil by lia. by rewrite app_nil_r.
  - simpl. destruct (Z.ltb_spec (Z.of_nat (length out)) n) as [Hlt|Hge].
    + assert (0 <= i / 26 < 26)
        by (split; [apply Z.div_pos | apply Z.div_lt_upper_bound]; lia).
      pose proof (Z.mod_pos_bound i 26 ltac:(lia)).
      rewrite !letters_nth by lia. simpl.
      rewrite IH by (rewrite ?length_app; simpl; lia).
      f_equal. rewrite <- app_assoc. f_equal.
      rewrite (seqZ_cons (26 + i)) by lia. simpl. f_equal.
      * unfold label_of. destruct (Z.ltb_spec (26 + i) 26); [lia|].
        by replace (26 + i - 26) with i by lia.
      * f_equal. f_equal; lia.
    + rewrite seqZ_nil by lia. by rewrite app_nil_r.
Qed.

(** What [option_labels] returns on every count the scheme covers. *)
Lemma option_labels_spec (n : Z) :
  0 <= n <= 702 -> option_labels n = Ok (label_of <$> seqZ 0 n).
Proof.
  intros Hn. unfold option_labels. destruct (Z.leb_spec n 26) as [Hle|Hgt].
  - f_equal. unfold py_take. destruct (Z.ltb_spec n 0); [lia|].
    rewrite letters_label_of, <- fmap_take. f_equal.
    replace 26 with (n + (26 - n)) by lia.
    rewrite seqZ_app by lia.
    rewrite take_app_length'; [done|]. rewrite length_seqZ. lia.
  - rewrite (labels_loop_spec _ _ _ 0) by (rewrite ?letters_length; lia).
    unfold mbind, result_bind. f_equal. unfold py_take. destruct (Z.ltb_spec n 0); [lia|].
    rewrite letters_label_of, <- fmap_app.
    replace (seqZ 0 26 ++ seqZ (26 + 0) (n - (26 + 0))) with (seqZ 0 n).
    + rewrite take_ge; [done|]. rewrite length_fmap, length_seqZ. lia.
    + replace n with (26 + (n - 26)) at 1 by lia.
      rewrite seqZ_app by lia. f_equal.
Qed.

(** Past 702 the first letter runs out: [letters[26]] does not exist. *)
Lemma option_labels_overflow : option_labels 703 = Raise IndexError.
Proof. vm_compute. reflexivity. Qed.

Lemma labels_NoDup (n : Z) : 0 <= n <= 702 -> NoDup (label_of <$> seqZ 0 n).
Proof.
  intros Hn. apply NoDup_fmap_2_strong; [|apply NoDup_seqZ].
  intros i j Hi Hj. apply elem_of_seqZ in Hi, Hj. apply label_of_inj; lia.
Qed.

Lemma str_map_app (f : ascii -> ascii) (s t : string) :
  str_map f (s ++ t) = (str_map f s ++ str_map f t)%string.
Proof. induction s as [|c s IH]; simpl; [done | by rewrite IH]. Qed.

Lemma letter_at_upper (k : Z) : 0 <= k < 26 -> upper (letter_at k) = letter_at k.
Proof. intros Hk. first26 k. Qed.

Lemma letter_at_upper_lower (k : Z) :
  0 <= k < 26 -> upper (lower (letter_at k)) = letter_at k.
Proof. intros Hk. first26 k. Qed.

Lemma letter_at_first_not_digit (k : Z) (s : string) :
  0 <= k < 26 -> isdigit (letter_at k ++ s) = false.
Proof. intros Hk. first26 k. Qed.

Lemma label_of_cases (i : Z) :
  0 <= i < 702 ->
  exists j k, 0 <= j < 26 /\ 0 <= k < 26 /\
    (label_of i = letter_at j \/ label_of i = (letter_at j ++ letter_at k)%string).
Proof.
  intros Hi. unfold label_of. destruct (Z.ltb_spec i 26).
  - exists i, 0. auto with lia.
  - exists ((i - 26) / 26), ((i - 26) mod 26).
    pose proof (Z.mod_pos_bound (i - 26) 26 ltac:(lia)).
    repeat split; try lia; [apply Z.div_pos | apply Z.div_lt_upper_bound | auto]; lia.
Qed.

Lemma label_of_upper (i : Z) : 0 <= i < 702 -> upper (label_of i) = label_of i.
Proof.
  intros Hi. destruct (label_of_cases i Hi) as (j & k & Hj & Hk & [-> | ->]).
  - by apply letter_at_upper.
  - unfold upper. rewrite str_map_app. fold upper. by rewrite !letter_at_upper.
Qed.

Lemma label_of_upper_lower (i : Z) :
  0 <= i < 702 -> upper (lower (label_of i)) = label_of i.
Proof.
  intros Hi. destruct (label_of_cases i Hi) as (j & k & Hj & Hk & [-> | ->]).
  - by apply letter_at_upper_lower.
  - unfold upper, lower. rewrite !str_map_app. fold upper lower.
    by rewrite !letter_at_upper_lower.
Qed.

Lemma label_of_not_digit (i : Z) : 0 <= i < 702 -> isdigit (label_of i) = false.
Proof.
  intros Hi. destruct (label_of_cases i Hi) as (j & k & Hj & Hk & [-> | ->]).
  - by rewrite <- (letter_at_first_not_digit j EmptyString Hj).
  - by apply letter_at_first_not_digit.
Qed.

Lemma is_digit_upper (c : ascii) : is_digit c = true -> upper_ascii c = c.
Proof.
  unfold is_digit, upper_ascii. intros Hc.
  apply andb_true_iff in Hc as [_ Hc]. apply Nat.leb_le in Hc.
  destruct (Nat.leb_spec 97 (nat_of_ascii c)); [lia | done].
Qed.

Lemma digits_upper (s : string) : str_forall is_digit s = true -> upper s = s.
Proof.
  induction s as [|c s IH]; simpl; [done|]. intros Hs.
  apply andb_true_iff in Hs as [Hc Hs].
  unfold upper in *. simpl. by rewrite is_digit_upper, IH.
Qed.

Lemma isdigit_upper (s : string) : isdigit s = true -> upper s = s.
Proof. destruct s; [done | apply digits_upper]. Qed.

(** *** Decimal numerals *)

Lemma pretty_N_char_digit (y : N) : is_digit (pretty_N_char y) = true.
Proof.
  destruct y as [|p]; [reflexivity|].
  repeat (destruct p as [p|p|]; try reflexivity).
Qed.

Lemma pretty_N_char_val (y : N) : (y < 10)%N -> digit_val (pretty_N_char y) = Z.of_N y.
Proof.
  intros Hy. destruct y as [|p]; [reflexivity|].
  repeat (destruct p as [p|p|]; try reflexivity; try lia).
Qed.

Lemma pretty_N_go_digits (x : N) (s : string) :
  isdigit s = true -> isdigit (pretty_N_go x s) = true.
Proof.
  revert s. induction (N.lt_wf_0 x) as [x _ IH]; intros s Hs.
  destruct (decide (x = 0)%N) as [->|Hx].
  - by rewrite pretty_N_go_0.
  - rewrite pretty_N_go_step by lia. apply IH.
    + apply N.div_lt; lia.
    + simpl. rewrite pretty_N_char_digit. simpl. by destruct s.
Qed.

Lemma pretty_N_go_val (x : N) (s : string) :
  int_digits 0 (pretty_N_go x s) = int_digits (Z.of_N x) s.
Proof.
  revert s. induction (N.lt_wf_0 x) as [x _ IH]; intros s.
  destruct (decide (x = 0)%N) as [->|Hx].
  - by rewrite pretty_N_go_0.
  - rewrite pretty_N_go_step by lia. rewrite IH by (apply N.div_lt; lia).
    simpl. f_equal. rewrite pretty_N_char_val by (apply N.mod_lt; lia).
    rewrite (N.div_mod x 10) at 3 by lia. lia.
Qed.

Lemma pretty_N_isdigit (x : N) : isdigit (pretty x) = true.
Proof.
  unfold pretty, pretty_N. case_decide; [done|].
  rewrite pretty_N_go_step by lia. apply pretty_N_go_digits.
  simpl. by rewrite pretty_N_char_digit.
Qed.

Lemma pretty_N_digits_val (x : N) : int_digits 0 (pretty x) = Z.of_N x.
Proof.
  unfold pretty, pretty_N. case_decide as Hx; [by rewrite Hx|].
  by rewrite pretty_N_go_val.
Qed.

Lemma pretty_nat_isdigit (i : Z) : 0 <= i -> isdigit (str_of_Z i) = true.
Proof.
  intros Hi. destruct i as [|p|p]; [reflexivity | | lia].
  apply (pretty_N_isdigit (N.pos p)).
Qed.

Lemma pretty_nat_digits_val (i : Z) : 0 <= i -> int_digits 0 (str_of_Z i) = i.
Proof.
  intros Hi. destruct i as [|p|p]; [reflexivity | | lia].
  apply (pretty_N_digits_val (N.pos p)).
Qed.

Lemma literal_digits_plain (s : string) :
  str_forall is_digit s = true -> literal_digits true s = Some s.
Proof.
  induction s as [|c s IH]; simpl; [done|]. intros Hs.
  apply andb_true_iff in Hs as [-> Hs]. by rewrite IH.
Qed.

(** On a string of digits [int] is the decimal value, whatever its
    leading zeros. *)
Lemma py_int_isdigit (s : string) :
  isdigit s = true -> py_int s = Ok (int_digits 0 s).
Proof.
  intros Hs. destruct s as [|c s]; [done|]. simpl in Hs.
  apply andb_true_iff in Hs as [Hc Hs].
  assert (int_unsigned (String c s) = Ok (int_digits 0 (String c s))) as Hu.
  { unfold int_unsigned. simpl literal_digits. rewrite Hc.
    by rewrite literal_digits_plain. }
  unfold py_int.
  destruct c as [[] [] [] [] [] [] [] []]; try exact Hu; discriminate.
Qed.

(** ** The layout engine *)

Lemma ceil_div_Z (a b : Z) :
  b <> 0 -> ceil_div a b = Ok (- ((- a) `div` b)).
Proof.
  intros Hb. unfold ceil_div. destruct (Z.eqb_spec b 0); [lia|]. f_equal.
  destruct b as [|p|p]; [lia | |];
    unfold Qceiling, Qfloor, Qdiv, Qinv, Qmult, Qopp, inject_Z; simpl.
  - by rewrite Z.mul_1_r.
  - rewrite <- Z.div_opp_opp by lia. do 2 f_equal; lia.
Qed.

Lemma ceil_div_pos (a b r : Z) :
  0 < b -> ceil_div a b = Ok r -> (r - 1) * b < a <= r * b.
Proof.
  intros Hb. rewrite ceil_div_Z by lia. intros [= <-].
  pose proof (Z.div_mod (- a) b ltac:(lia)).
  pose proof (Z.mod_pos_bound (- a) b Hb). nia.
Qed.

Section layout_facts.
Variable a : layout_args.
Variables W H : Q.
Variables max_k cols : Z.
Local Abbreviation N := (a_num_questions a).
Local Abbreviation counts := (a_per_q_counts a).
Hypothesis Hcols : 1 <= cols.
Hypothesis Hlen : N <= Z.of_nat (length counts).

Lemma counts_nth (qn : Z) :
  1 <= qn <= N -> py_nth counts (qn - 1) = Ok (count_at counts qn).
Proof.
  intros Hq. unfold count_at.
  destruct (counts !! Z.to_nat (qn - 1)) as [k|] eqn:Hk.
  - simpl. replace (qn - 1) with (Z.of_nat (Z.to_nat (qn - 1))) by lia.
    by apply py_nth_lookup.
  - apply lookup_ge_None in Hk. lia.
Qed.

Lemma col_loop_spec (r c0 : Z) (n : nat) :
  0 <= r -> 0 <= c0 -> c0 + Z.of_nat n <= cols ->
  col_loop a W H max_k cols r (seqZ c0 (Z.of_nat n))
  = Ok (concat (placed a W H max_k cols <$>
          seqZ (r * cols + c0 + 1) (Z.min (Z.of_nat n) (N - (r * cols + c0))))).
Proof.
  intros Hr. revert c0. induction n as [|n IH]; intros c0 Hc0 Hn.
  - rewrite !seqZ_nil by lia. reflexivity.
  - rewrite (seqZ_cons c0) by lia. simpl col_loop.
    
    destruct (Z.gtb_spec (r * cols + c0 + 1) N) as [Hgt|Hle].
    + rewrite seqZ_nil by lia. reflexivity.
    + assert (0 <= r * cols) by nia. rewrite counts_nth by lia.
      replace (Z.pred (Z.of_nat (S n))) with (Z.of_nat n) by lia.
      unfold mbind at 1, result_bind at 1.
      rewrite IH by lia. unfold mbind, result_bind. f_equal.
      rewrite (seqZ_cons (r * cols + c0 + 1)) by lia.
      rewrite fmap_cons. simpl concat. f_equal.
      * unfold placed. 
        replace (r * cols + c0 + 1 - 1) with (c0 + r * cols) by lia.
        rewrite Z.div_add, Z.mod_add by lia.
        rewrite Z.div_small, Z.mod_small by lia. reflexivity.
      * f_equal. f_equal. f_equal; lia.
Qed.

Lemma row_loop_spec (r0 : Z) (m : nat) :
  0 <= r0 ->
  row_loop a W H max_k cols (seqZ r0 (Z.of_nat m))
  = Ok (concat (placed a W H max_k cols <$>
          seqZ (r0 * cols + 1) (Z.min (Z.of_nat m * cols) (N - r0 * cols)))).
Proof.
  revert r0. induction m as [|m IH]; intros r0 Hr0.
  - rewrite !seqZ_nil by lia. reflexivity.
  - rewrite (seqZ_cons r0) by lia. simpl row_loop. unfold range.
    replace cols with (Z.of_nat (Z.to_nat cols)) at 2 by lia.
    rewrite col_loop_spec by lia.
    replace (Z.pred (Z.of_nat (S m))) with (Z.of_nat m) by lia.
    unfold mbind at 1, result_bind at 1.
    rewrite IH by lia. unfold mbind, result_bind. f_equal.
    rewrite <- concat_app, <- fmap_app. f_equal. f_equal.
    assert (0 <= r0 * cols) by nia. assert (0 <= Z.of_nat m * cols) by nia.
    rewrite Z2Nat.id by lia.
    replace (Z.of_nat (S m) * cols) with (Z.of_nat m * cols + cols) by lia.
    replace (Z.succ r0 * cols) with (r0 * cols + cols) by lia.
    destruct (Z.le_gt_cases (N - r0 * cols) cols) as [Hsmall|Hbig].
    + rewrite (seqZ_nil (r0 * cols + cols + 1)) by lia.
      rewrite app_nil_r. f_equal; lia.
    + replace (Z.min (Z.of_nat m * cols + cols) (N - r0 * cols))
        with (cols + Z.min (Z.of_nat m * cols) (N - (r0 * cols + cols))) by lia.
      rewrite seqZ_app by lia. f_equal; f_equal; lia.
Qed.

(** With enough rows the loops visit the questions 1..N in order. *)
Lemma row_loop_all (rows : Z) :
  0 <= N -> N <= rows * cols ->
  row_loop a W H max_k cols (range rows)
  = Ok (concat (placed a W H max_k cols <$> seqZ 1 N)).
Proof.
  intros HN Hrows. unfold range.
  assert (0 <= rows) by nia.
  replace rows with (Z.of_nat (Z.to_nat rows)) at 1 by lia.
  rewrite row_loop_spec by lia. rewrite Z2Nat.id by lia.
  replace (0 * cols + 1) with 1 by lia.
  by replace (Z.min (rows * cols) (N - 0 * cols)) with N by lia.
Qed.
End layout_facts.


Lemma grid_inv (a : layout_args) (H : Q) (max_k cols rows : Z) :
  grid a H max_k = Ok (cols, rows) ->
  exists rows_fit,
    floor_div (available_h H) (q_block_h a max_k) = Ok rows_fit /\
    1 <= rows_fit /\
    ceil_div (a_num_questions a) cols = Ok rows /\
    (if a_force_columns a then cols = a_columns a
     else exists c, ceil_div (a_num_questions a) rows_fit = Ok c /\
                    cols = Z.min (a_columns a) c).
Proof.
  unfold grid. intros Hg. apply bind_Ok in Hg as (rows_fit & Hfit & Hg).
  exists rows_fit. split; [done|].
  destruct (Z.leb_spec rows_fit 0); [discriminate|]. split; [lia|].
  destruct (a_force_columns a).
  - apply bind_Ok in Hg as (r & Hr & [= <- <-]). done.
  - apply bind_Ok in Hg as (c & Hc & Hg).
    apply bind_Ok in Hg as (r & Hr & [= <- <-]). eauto.
Qed.

(** With a requested column count of at least one and at least one
    question, the grid has at least one column and enough rows. *)
Lemma grid_covers (a : layout_args) (H : Q) (max_k cols rows : Z) :
  1 <= a_columns a -> 1 <= a_num_questions a ->
  grid a H max_k = Ok (cols, rows) ->
  1 <= cols /\ a_num_questions a <= rows * cols.
Proof.
  intros Hc HN Hg. apply grid_inv in Hg as (rows_fit & _ & Hfit & Hrows & Hcols).
  assert (1 <= cols) as Hcols1.
  { destruct (a_force_columns a); [lia|].
    destruct Hcols as (c & Hc' & ->). apply ceil_div_pos in Hc'; [|lia]. nia. }
  split; [done|]. apply ceil_div_pos in Hrows; lia.
Qed.

Lemma compute_layout_inv (a : layout_args) (L : Layout) :
  compute_layout a = Ok L ->
  exists W H max_k cols rows,
    PAPERS (a_paper a) = Ok (W, H) /\
    py_max (a_per_q_counts a) = Ok max_k /\
    grid a H max_k = Ok (cols, rows) /\
    row_loop a W H max_k cols (range rows) = Ok (boxes L) /\
    per_question_option_counts L = a_per_q_counts a /\
    num_questions L = a_num_questions a /\
    paper L = a_paper a /\
    answer_key L = [] /\
    margin_pt L = margin /\
    page_width_pt L = W /\ page_height_pt L = H.
Proof.
  unfold compute_layout. intros HL.
  apply bind_Ok in HL as ([W H] & HP & HL). unfold layout_body in HL.
  apply bind_Ok in HL as (max_k & Hmax & HL).
  apply bind_Ok in HL as ([cols rows] & Hg & HL).
  apply bind_Ok in HL as (bs & Hbs & [= <-]).
  exists W, H, max_k, cols, rows. simpl. repeat split; done.
Qed.

(** The boxes of a returned layout: the questions in order, each with
    its options in order. *)
Lemma compute_layout_boxes (a : layout_args) (L : Layout) :
  1 <= a_columns a -> 1 <= a_num_questions a ->
  a_num_questions a <= Z.of_nat (length (a_per_q_counts a)) ->
  compute_layout a = Ok L ->
  exists W H max_k cols,
    1 <= cols /\
    boxes L = concat (placed a W H max_k cols <$> seqZ 1 (a_num_questions a)).
Proof.
  intros Hc HN Hlen HL.
  apply compute_layout_inv in HL
    as (W & H & max_k & cols & rows & _ & _ & Hg & Hbs & _).
  destruct (grid_covers _ _ _ _ _ Hc HN Hg) as [Hcols Hrows].
  exists W, H, max_k, cols. split; [done|].
  rewrite row_loop_all in Hbs by lia. congruence.
Qed.

(** *** Box completeness *)

Lemma box_count_app (bs1 bs2 : list Box) (qn o : Z) :
  box_count (bs1 ++ bs2) qn o = (box_count bs1 qn o + box_count bs2 qn o)%nat.
Proof. unfold box_count. by rewrite filter_app, length_app. Qed.

Lemma box_count_options (f : Z -> Box) (qn' qn o m : Z) (n : nat) :
  (forall oi, q (f oi) = qn' /\ opt (f oi) = oi) ->
  box_count (f <$> seqZ m (Z.of_nat n)) qn o
  = if decide (qn' = qn /\ m <= o < m + Z.of_nat n) then 1%nat else 0%nat.
Proof.
  intros Hf. revert m. induction n as [|n IH]; intros m.
  - rewrite seqZ_nil by lia. simpl. case_decide; [lia | done].
  - rewrite seqZ_cons by lia. rewrite fmap_cons.
    change (f m :: ?l) with ([f m] ++ l). rewrite box_count_app.
    replace (Z.pred (Z.of_nat (S n))) with (Z.of_nat n) by lia.
    rewrite IH. unfold box_count. simpl. rewrite filter_cons, filter_nil.
    destruct (Hf m) as [-> ->].
    repeat case_decide; simpl; try done; lia.
Qed.

Lemma box_count_question (a : layout_args) (qn' k qn o : Z) (x y : Q) :
  box_count (question_boxes a qn' k x y) qn o
  = if decide (qn' = qn /\ 0 <= o < k) then 1%nat else 0%nat.
Proof.
  unfold question_boxes, range.
  destruct (Z.le_gt_cases k 0).
  - rewrite seqZ_nil by lia. simpl. case_decide; [lia | done].
  - replace k with (Z.of_nat (Z.to_nat k)) at 1 by lia.
    rewrite (box_count_options _ qn') by done.
    rewrite Z2Nat.id by lia. repeat case_decide; try done; lia.
Qed.

Lemma box_count_placed (a : layout_args) (W H : Q) (max_k cols : Z)
    (qs : list Z) (qn o : Z) :
  NoDup qs ->
  box_count (concat (placed a W H max_k cols <$> qs)) qn o
  = if decide (qn ∈ qs /\ 0 <= o < count_at (a_per_q_counts a) qn)
    then 1%nat else 0%nat.
Proof.
  intros Hnd. induction Hnd as [|q0 qs Hq0 Hnd IH].
  - destruct (decide _) as [[Hd _]|_]; [by apply elem_of_nil in Hd | done].
  - rewrite fmap_cons. change (concat (?l :: ?ls)) with (l ++ concat ls).
    rewrite box_count_app, IH. unfold placed at 1. rewrite box_count_question.
    destruct (decide (q0 = qn /\ _)) as [[-> Ho]|Hne];
      destruct (decide (qn ∈ qs /\ _)) as [[Hin Ho']|Hne'];
      destruct (decide (qn ∈ _ :: qs /\ _)) as [Hd|Hd];
      rewrite ?elem_of_cons in Hd; try done; exfalso; naive_solver.
Qed.

Lemma length_placed (a : layout_args) (W H : Q) (max_k cols qn : Z) :
  length (placed a W H max_k cols qn)
  = Z.to_nat (count_at (a_per_q_counts a) qn).
Proof. unfold placed, question_boxes, range. by rewrite length_fmap, length_seqZ. Qed.

Lemma count_at_seqZ (counts : list Z) :
  count_at counts <$> seqZ 1 (Z.of_nat (length counts)) = counts.
Proof.
  apply list_eq. intros i. rewrite list_lookup_fmap.
  destruct (counts !! i) as [k|] eqn:Hk.
  - pose proof (lookup_lt_Some _ _ _ Hk).
    rewrite lookup_seqZ_lt by lia. simpl. unfold count_at.
    replace (Z.to_nat (1 + Z.of_nat i - 1)) with i by lia. by rewrite Hk.
  - apply lookup_ge_None in Hk. by rewrite lookup_seqZ_ge by lia.
Qed.

Lemma length_concat_counts (counts : list Z) :
  Forall (Z.le 1) counts ->
  Z.of_nat (sum_list (Z.to_nat <$> counts)) = sum_counts counts.
Proof.
  intros Hpos. induction Hpos as [|k counts Hk _ IH]; [done|].
  change (Z.of_nat (Z.to_nat k + sum_list (Z.to_nat <$> counts))
          = k + sum_counts counts).
  rewrite Nat2Z.inj_add, IH. lia.
Qed.

Lemma placed_total (a : layout_args) (W H : Q) (max_k cols : Z) :
  a_num_questions a = Z.of_nat (length (a_per_q_counts a)) ->
  Forall (Z.le 1) (a_per_q_counts a) ->
  Z.of_nat (length (concat (placed a W H max_k cols
                              <$> seqZ 1 (a_num_questions a))))
  = sum_counts (a_per_q_counts a).
Proof.
  intros HN Hpos. rewrite length_concat, <- list_fmap_compose.
  rewrite (list_fmap_ext _ (Z.to_nat ∘ count_at (a_per_q_counts a)))
    by (intros; apply length_placed).
  rewrite list_fmap_compose, HN, count_at_seqZ.
  by apply length_concat_counts.
Qed.


Lemma ceil_div_zero (a : Z) : ceil_div a 0 = Raise ZeroDivisionError.
Proof. reflexivity. Qed.

(** *** Feasibility *)

Lemma mm_pos : (0 < mm)%Q.
Proof. reflexivity. Qed.


Lemma py_max_spec (counts : list Z) :
  counts <> [] -> Forall (Z.le 1) counts ->
  exists m, py_max counts = Ok m /\ 1 <= m /\ Forall (fun k => k <= m) counts.
Proof.
  intros Hne Hpos. destruct counts as [|k counts]; [done|]. clear Hne.
  exists (foldl Z.max k counts). split; [done|].
  apply Forall_cons in Hpos as [Hk Hpos].
  assert (forall l x, x <= foldl Z.max x l /\ Forall (fun y => y <= foldl Z.max x l) l)
    as Hfold.
  { induction l as [|y l IH]; intros x; simpl; [split; [lia | constructor]|].
    destruct (IH (Z.max x y)) as [H1 H2].
    split; [lia|]. constructor; [lia | done]. }
  destruct (Hfold counts k) as [H1 H2].
  split; [lia|]. by constructor.
Qed.

Lemma q_block_h_pos (a : layout_args) (max_k : Z) :
  1 <= max_k -> (0 < a_box_size_mm a)%Q -> (0 <= a_row_gap_mm a)%Q ->
  (0 < q_block_h a max_k)%Q.
Proof.
  intros Hk Hbs Hrg. unfold q_block_h, box_size, box_gap_y, question_gap_y.
  pose proof mm_pos as Hmm.
  assert (0 <= inject_Z max_k * (a_box_size_mm a * mm))%Q.
  { apply Qmult_le_0_compat.
    - change 0%Q with (inject_Z 0). rewrite <- Zle_Qle. lia.
    - apply Qmult_le_0_compat; by apply Qlt_le_weak. }
  assert (0 <= inject_Z (max_k - 1) * (4 * mm))%Q.
  { apply Qmult_le_0_compat.
    - change 0%Q with (inject_Z 0). rewrite <- Zle_Qle. lia.
    - lra. }
  assert (0 <= a_row_gap_mm a * mm)%Q
    by (apply Qmult_le_0_compat; [done | by apply Qlt_le_weak]).
  lra.
Qed.






(** *** Containment *)


Lemma inject_Z_nonneg (z : Z) : 0 <= z -> (0 <= inject_Z z)%Q.
Proof. intros Hz. change 0%Q with (inject_Z 0). by rewrite <- Zle_Qle. Qed.

Lemma inject_Z_le (y z : Z) : y <= z -> (inject_Z y <= inject_Z z)%Q.
Proof. intros Hz. by rewrite <- Zle_Qle. Qed.




Lemma floor_div_le (x y : Q) (rf : Z) :
  (0 < y)%Q -> floor_div x y = Ok rf -> (inject_Z rf * y <= x)%Q.
Proof.
  intros Hy. unfold floor_div. destruct (Qeq_bool y 0); [done|].
  intros [= <-].
  assert (~ y == 0)%Q as Hne
    by (intros H0; rewrite H0 in Hy; by apply Qlt_irrefl in Hy).
  assert (inject_Z (Qfloor (x / y)) * y <= x / y * y)%Q as H1
    by (apply Qmult_le_compat_r; [apply Qfloor_le | by apply Qlt_le_weak]).
  assert (x / y * y == x)%Q as H2 by (field; exact Hne).
  by rewrite H2 in H1.
Qed.


Lemma py_max_upper (counts : list Z) (m : Z) :
  py_max counts = Ok m -> Forall (fun k => k <= m) counts.
Proof.
  destruct counts as [|k counts]; [constructor|]. intros [= <-].
  assert (forall l x, x <= foldl Z.max x l /\ Forall (fun y => y <= foldl Z.max x l) l)
    as Hfold.
  { induction l as [|y l IH]; intros x; simpl; [split; [lia | constructor]|].
    destruct (IH (Z.max x y)) as [H1 H2].
    split; [lia|]. constructor; [lia | done]. }
  destruct (Hfold counts k) as [H1 H2]. by constructor.
Qed.

Lemma count_at_le_max (counts : list Z) (m qn : Z) :
  0 <= m -> py_max counts = Ok m -> count_at counts qn <= m.
Proof.
  intros Hm Hmax. unfold count_at.
  destruct (counts !! Z.to_nat (qn - 1)) as [k|] eqn:Hk; [|done]. simpl.
  apply py_max_upper in Hmax. rewrite Forall_forall in Hmax.
  apply Hmax. eapply list_elem_of_lookup_2; eauto.
Qed.


(** *** Layout invariants of a returned layout *)

Lemma compute_layout_complete (a : layout_args) (L : Layout) :
  1 <= a_num_questions a ->
  a_num_questions a <= Z.of_nat (length (a_per_q_counts a)) ->
  1 <= a_columns a ->
  compute_layout a = Ok L ->
  box_complete (a_num_questions a) (a_per_q_counts a) (boxes L).
Proof.
  intros HN Hlen Hc HL.
  destruct (compute_layout_boxes a L Hc HN Hlen HL)
    as (W & H & max_k & cols & Hcols & ->).
  intros qn o. rewrite box_count_placed by apply NoDup_seqZ.
  unfold has_option.
  destruct (decide _) as [[Hin Ho]|Hn].
  - apply elem_of_seqZ in Hin.
    destruct (Z.leb_spec 1 qn), (Z.leb_spec qn (a_num_questions a)),
      (Z.leb_spec 0 o), (Z.ltb_spec o (count_at (a_per_q_counts a) qn));
      simpl; (done || lia).
  - destruct (Z.leb_spec 1 qn), (Z.leb_spec qn (a_num_questions a)),
      (Z.leb_spec 0 o), (Z.ltb_spec o (count_at (a_per_q_counts a) qn));
      simpl; try done.
    exfalso. apply Hn. split; [apply elem_of_seqZ|]; lia.
Qed.

Lemma PAPERS_height (p : string) (W H : Q) :
  PAPERS p = Ok (W, H) -> (H <= 297 * mm)%Q.
Proof.
  unfold PAPERS. destruct (String.eqb p "A4"); [intros [= <- <-]; apply Qle_refl|].
  destruct (String.eqb p "LETTER"); [|done]. intros [= <- <-]. by vm_compute.
Qed.

(** A block that fits on the page has far fewer options than the labelling
    scheme covers. *)
Lemma fitting_max_k (a : layout_args) (H : Q) (max_k rows_fit : Z) :
  (H <= 297 * mm)%Q -> 1 <= max_k ->
  (0 < a_box_size_mm a)%Q -> (0 <= a_row_gap_mm a)%Q ->
  floor_div (available_h H) (q_block_h a max_k) = Ok rows_fit ->
  1 <= rows_fit ->
  max_k <= 702.
Proof.
  intros HH Hk Hbs Hrg Hfit Hrf.
  pose proof (q_block_h_pos a max_k Hk Hbs Hrg) as Hpos.
  pose proof (floor_div_le _ _ _ Hpos Hfit) as Hle.
  destruct (Z.le_gt_cases max_k 702) as [|Hbig]; [done|]. exfalso.
  pose proof mm_pos as Hmm.
  assert (1 * q_block_h a max_k <= inject_Z rows_fit * q_block_h a max_k)%Q as H1.
  { apply Qmult_le_compat_r; [|lra]. change 1%Q with (inject_Z 1).
    by apply inject_Z_le. }
  assert (0 <= inject_Z max_k * box_size a)%Q as H2.
  { apply Qmult_le_0_compat; [apply inject_Z_nonneg; lia|].
    unfold box_size. apply Qmult_le_0_compat; lra. }
  assert (702 * (4 * mm) <= inject_Z (max_k - 1) * box_gap_y)%Q as H3.
  { unfold box_gap_y. apply Qmult_le_compat_r; [|lra].
    change 702%Q with (inject_Z 702). apply inject_Z_le. lia. }
  assert (0 <= a_row_gap_mm a * mm)%Q as H4 by (apply Qmult_le_0_compat; lra).
  unfold q_block_h, question_gap_y, available_h, content_top, usable_bottom,
    top_reserved, marker_size, margin in *.
  lra.
Qed.

Lemma compute_layout_wf (a : layout_args) (L : Layout) :
  1 <= a_num_questions a ->
  a_num_questions a = Z.of_nat (length (a_per_q_counts a)) ->
  Forall (Z.le 1) (a_per_q_counts a) ->
  1 <= a_columns a ->
  (0 < a_box_size_mm a)%Q -> (0 <= a_row_gap_mm a)%Q ->
  compute_layout a = Ok L ->
  layout_wf L.
Proof.
  intros HN Hlen Hpos Hc Hbs Hrg HL.
  pose proof (compute_layout_complete a L HN ltac:(lia) Hc HL) as Hcomplete.
  apply compute_layout_inv in HL
    as (W & H & max_k & cols & rows & HP & Hmax & Hg & _ & Hcounts & HNL & _).
  unfold layout_wf. rewrite Hcounts, HNL.
  split; [done|]. split; [lia|].
  intros qn Hq.
  assert (a_per_q_counts a <> []) as Hne
    by (intros Hnil; rewrite Hnil in Hlen; simpl in Hlen; lia).
  destruct (py_max_spec _ Hne Hpos) as (m & Hm & Hm1 & _).
  assert (m = max_k) as -> by congruence.
  destruct (grid_inv _ _ _ _ _ Hg) as (rows_fit & Hfit & Hrf & _).
  pose proof (fitting_max_k a H max_k rows_fit (PAPERS_height _ _ _ HP)
                Hm1 Hbs Hrg Hfit Hrf).
  pose proof (count_at_le_max (a_per_q_counts a) max_k qn ltac:(lia) Hmax). lia.
Qed.

(** ** The sheet renderer *)

(** *** Grouping and sorting the boxes *)

Lemma group_by_q_fold (bs : list Box) (m : gmap Z (list Box)) (qn : Z) :
  foldl (fun m b => <[q b := default [] (m !! q b) ++ [b]]> m) m bs !! qn
  = match filter (fun b => q b = qn) bs with
    | [] => m !! qn
    | fs => Some (default [] (m !! qn) ++ fs)
    end.
Proof.
  revert m. induction bs as [|b bs IH]; intros m; [done|].
  simpl foldl. rewrite IH. rewrite filter_cons.
  destruct (decide (q b = qn)) as [<-|Hne].
  - rewrite lookup_insert_eq. simpl.
    destruct (filter _ bs) as [|b' fs].
    + done.
    + by rewrite <- app_assoc.
  - by rewrite lookup_insert_ne.
Qed.

Lemma group_by_q_lookup (bs : list Box) (qn : Z) :
  group_by_q bs !! qn
  = match filter (fun b => q b = qn) bs with
    | [] => None
    | fs => Some fs
    end.
Proof.
  unfold group_by_q. rewrite group_by_q_fold, lookup_empty.
  by destruct (filter _ bs).
Qed.

Lemma insert_by_opt_Permutation (b : Box) (l : list Box) :
  insert_by_opt b l ≡ₚ b :: l.
Proof.
  induction l as [|c l IH]; simpl; [done|].
  destruct (opt b <=? opt c); [done|]. rewrite IH. apply Permutation_swap.
Qed.

Lemma sort_by_opt_Permutation (l : list Box) : sort_by_opt l ≡ₚ l.
Proof.
  induction l as [|b l IH]; simpl; [done|].
  by rewrite insert_by_opt_Permutation, IH.
Qed.

Lemma Sorted_seqZ (m : Z) (n : nat) : Sorted Z.le (seqZ m (Z.of_nat n)).
Proof.
  revert m. induction n as [|n IH]; intros m.
  - rewrite seqZ_nil by lia. constructor.
  - rewrite seqZ_cons by lia.
    replace (Z.pred (Z.of_nat (S n))) with (Z.of_nat n) by lia.
    constructor; [apply IH|].
    destruct n as [|n]; [rewrite seqZ_nil by lia; constructor|].
    rewrite seqZ_cons by lia. constructor. lia.
Qed.

(** The keys in ascending order are the questions 1..N once every question
    has a box and no box belongs to another question. *)
Lemma sorted_keys_questions (m : gmap Z (list Box)) (N : Z) :
  (forall qn, is_Some (m !! qn) <-> 1 <= qn <= N) ->
  sorted_keys m = seqZ 1 N.
Proof.
  intros Hdom. unfold sorted_keys.
  apply (Sorted_unique Z.le).
  - apply Sorted_merge_sort. apply _.
  - destruct (Z.le_gt_cases N 0).
    + rewrite seqZ_nil by lia. constructor.
    + replace N with (Z.of_nat (Z.to_nat N)) by lia. apply Sorted_seqZ.
  - rewrite merge_sort_Permutation.
    apply NoDup_Permutation; [apply NoDup_elements | apply NoDup_seqZ |].
    intros qn. rewrite elem_of_elements, elem_of_dom, elem_of_seqZ, Hdom. lia.
Qed.

(** *** Drawing the boxes *)

Lemma bind_eq {A B} (r : result A) (k : A -> result B) (x : A) :
  r = Ok x -> r ≫= k = k x.
Proof. by intros ->. Qed.

Lemma filled_rects_app (l1 l2 : list op) :
  filled_rects (l1 ++ l2) = filled_rects l1 ++ filled_rects l2.
Proof. apply filter_app. Qed.

Lemma mapM_ok {A B} (f : A -> result B) (P : A -> B -> Prop) (l : list A) :
  (forall x, x ∈ l -> exists y, f x = Ok y /\ P x y) ->
  exists ys, mapM f l = Ok ys /\ Forall2 P l ys.
Proof.
  induction l as [|x l IH]; intros Hf.
  - exists []. split; [done | constructor].
  - destruct (Hf x) as (y & Hy & HP); [constructor|].
    destruct IH as (ys & Hys & HPs); [intros x' Hx'; apply Hf; by constructor|].
    exists (y :: ys). simpl. rewrite Hy. simpl. rewrite Hys. simpl.
    split; [done | by constructor].
Qed.

Lemma draw_box_filled (l : Layout) (fill : bool) (qn ans : Z)
    (labels : list string) (b : Box) (lab : string) :
  (fill = true -> py_nth (answer_key l) (qn - 1) = Ok ans) ->
  py_nth labels (opt b) = Ok lab ->
  exists ops,
    draw_box l fill qn labels b = Ok ops /\
    filled_rects ops
    = if decide (fill = true /\ opt b = ans) then [fill_rect b] else [].
Proof.
  intros Hkey Hlab. unfold draw_box. rewrite Hlab.
  destruct (decide (fill = true /\ opt b = ans)) as [[-> He]|Hn].
  - rewrite Hkey by done. simpl. subst ans. rewrite Z.eqb_refl.
    eexists. split; done.
  - destruct fill.
    + rewrite Hkey by done. simpl.
      destruct (Z.eqb_spec ans (opt b)) as [He|_]; [by destruct Hn|].
      eexists. split; done.
    + simpl. eexists. split; done.
Qed.

Lemma draw_boxes_filled (l : Layout) (fill : bool) (qn ans k : Z)
    (bxs : list Box) :
  0 <= k <= 702 ->
  (fill = true -> py_nth (answer_key l) (qn - 1) = Ok ans) ->
  (forall b, b ∈ bxs -> 0 <= opt b < k) ->
  exists body,
    mapM (draw_box l fill qn (label_of <$> seqZ 0 k)) bxs = Ok body /\
    filled_rects (concat body)
    = fill_rect <$> filter (fun b => fill = true /\ opt b = ans) bxs.
Proof.
  intros Hk Hkey. induction bxs as [|b bxs IH]; intros Hopt.
  - exists []. done.
  - destruct IH as (body & Hbody & Hfilled);
      [intros b' Hb'; apply Hopt; by constructor|].
    destruct (draw_box_filled l fill qn ans (label_of <$> seqZ 0 k) b
                (label_of (opt b)) Hkey) as (ops & Hops & Hf).
    { apply py_nth_fmap_seqZ. apply Hopt. constructor. }
    exists (ops :: body). simpl mapM. rewrite Hops. simpl. rewrite Hbody.
    split; [done|].
    change (concat (ops :: body)) with (ops ++ concat body).
    rewrite filled_rects_app, Hf, Hfilled, filter_cons.
    by destruct (decide (fill = true /\ opt b = ans)).
Qed.

Lemma draw_question_filled (l : Layout) (fill : bool) (qn ans k : Z)
    (bxs : list Box) :
  bxs <> [] ->
  py_nth (per_question_option_counts l) (qn - 1) = Ok k ->
  0 <= k <= 702 ->
  (fill = true -> py_nth (answer_key l) (qn - 1) = Ok ans) ->
  (forall b, b ∈ bxs -> 0 <= opt b < k) ->
  exists ops,
    draw_question l fill qn bxs = Ok ops /\
    filled_rects ops
    = fill_rect <$> filter (fun b => fill = true /\ opt b = ans) bxs.
Proof.
  intros Hne Hcount Hk Hkey Hopt.
  destruct (draw_boxes_filled l fill qn ans k bxs Hk Hkey Hopt)
    as (body & Hbody & Hfilled).
  unfold draw_question. destruct bxs as [|b0 bxs]; [done|].
  rewrite (bind_eq _ _ b0) by reflexivity.
  rewrite (bind_eq _ _ k) by exact Hcount.
  rewrite (bind_eq _ _ _ (option_labels_spec k Hk)).
  rewrite (bind_eq _ _ _ Hbody).
  eexists. split; [done|].
  rewrite filled_rects_app. by rewrite Hfilled.
Qed.

(** *** The whole sheet *)

Lemma py_nth_count_at (counts : list Z) (qn : Z) :
  1 <= qn <= Z.of_nat (length counts) ->
  py_nth counts (qn - 1) = Ok (count_at counts qn).
Proof.
  intros Hq. unfold count_at.
  destruct (counts !! Z.to_nat (qn - 1)) as [k|] eqn:Hk.
  - simpl. replace (qn - 1) with (Z.of_nat (Z.to_nat (qn - 1))) by lia.
    by apply py_nth_lookup.
  - apply lookup_ge_None in Hk. lia.
Qed.

Lemma header_filled (today : string) (l : Layout) (sid : option string)
    (hd : header) (W H : Q) :
  filled_rects (header_ops today l sid hd W H) = marker_rects W H l.
Proof.
  unfold header_ops, marker_rects, draw_corner_markers.
  destruct (nonempty (course_name hd)), (nonempty (professor hd)), sid as [s|];
    try destruct (nonempty s); reflexivity.
Qed.

Lemma box_count_elem (bs : list Box) (b : Box) :
  b ∈ bs -> (1 <= box_count bs (q b) (opt b))%nat.
Proof.
  intros Hb. unfold box_count.
  assert (b ∈ filter (fun b' => q b' = q b /\ opt b' = opt b) bs) as Hin
    by (apply list_elem_of_filter; done).
  destruct (filter _ bs); [by apply elem_of_nil in Hin | simpl; lia].
Qed.

Lemma box_complete_elem (N : Z) (counts : list Z) (bs : list Box) (b : Box) :
  box_complete N counts bs -> b ∈ bs ->
  1 <= q b <= N /\ 0 <= opt b < count_at counts (q b).
Proof.
  intros Hc Hb. apply box_count_elem in Hb. rewrite Hc in Hb.
  unfold has_option in Hb.
  destruct (Z.leb_spec 1 (q b)), (Z.leb_spec (q b) N), (Z.leb_spec 0 (opt b)),
    (Z.ltb_spec (opt b) (count_at counts (q b))); simpl in Hb; lia.
Qed.

(** Under box completeness exactly one box of question [qn] carries a
    given valid option index. *)
Lemma box_complete_unique (N : Z) (counts : list Z) (bs : list Box) (qn o : Z) :
  box_complete N counts bs ->
  1 <= qn <= N -> 0 <= o < count_at counts qn ->
  exists b, filter (fun b => q b = qn /\ opt b = o) bs = [b] /\
            b ∈ bs /\ q b = qn /\ opt b = o.
Proof.
  intros Hc Hq Ho. specialize (Hc qn o). unfold box_count, has_option in Hc.
  destruct (Z.leb_spec 1 qn), (Z.leb_spec qn N), (Z.leb_spec 0 o),
    (Z.ltb_spec o (count_at counts qn)); try lia. simpl in Hc.
  destruct (filter _ bs) as [|b [|b' fs]] eqn:Hf; simpl in Hc; try lia.
  exists b. split; [done|].
  assert (b ∈ filter (fun b => q b = qn /\ opt b = o) bs) as Hin
    by (rewrite Hf; constructor).
  apply list_elem_of_filter in Hin. tauto.
Qed.

Lemma grouped_lookup (l : Layout) (qn : Z) (b0 : Box) :
  b0 ∈ boxes l -> q b0 = qn ->
  exists bxs,
    (sort_by_opt <$> group_by_q (boxes l)) !! qn = Some bxs /\
    bxs ≡ₚ filter (fun b => q b = qn) (boxes l) /\ bxs <> [].
Proof.
  intros Hb Hq.
  assert (b0 ∈ filter (fun b => q b = qn) (boxes l)) as Hin
    by (apply list_elem_of_filter; done).
  rewrite lookup_fmap, group_by_q_lookup.
  destruct (filter _ (boxes l)) as [|b fs] eqn:Hf; [by apply elem_of_nil in Hin|].
  exists (sort_by_opt (b :: fs)). split; [done|].
  split; [apply sort_by_opt_Permutation|].
  intros Hnil. pose proof (sort_by_opt_Permutation (b :: fs)) as Hp.
  rewrite Hnil in Hp. by apply Permutation_nil_cons in Hp.
Qed.

Lemma grouped_dom (l : Layout) (qn : Z) :
  layout_wf l -> key_valid l ->
  is_Some ((sort_by_opt <$> group_by_q (boxes l)) !! qn)
  <-> 1 <= qn <= num_questions l.
Proof.
  intros (Hc & Hlen & Hmax) Hkey. split.
  - rewrite lookup_fmap, group_by_q_lookup. intros [bxs Hs].
    destruct (filter _ (boxes l)) as [|b fs] eqn:Hf; [done|].
    assert (b ∈ filter (fun b => q b = qn) (boxes l)) as Hin
      by (rewrite Hf; constructor).
    apply list_elem_of_filter in Hin as [<- Hin].
    by apply (box_complete_elem _ _ _ _ Hc Hin).
  - intros Hq. destruct (Hkey qn Hq) as (ans & _ & Hans).
    destruct (box_complete_unique _ _ _ qn ans Hc Hq Hans) as (b & _ & Hb & Hqb & _).
    destruct (grouped_lookup l qn b Hb Hqb) as (bxs & -> & _). eauto.
Qed.

(** One question of a well-formed layout: drawn without error, with exactly
    the key's box filled when the solution is revealed and none otherwise. *)
Lemma question_rendered (l : Layout) (fill : bool) (qn : Z) :
  layout_wf l -> key_valid l -> 1 <= qn <= num_questions l ->
  exists ops,
    draw_question l fill qn
      (default [] ((sort_by_opt <$> group_by_q (boxes l)) !! qn)) = Ok ops /\
    if fill then
      exists b, filled_rects ops = [fill_rect b] /\ b ∈ boxes l /\ q b = qn /\
                py_nth (answer_key l) (qn - 1) = Ok (opt b)
    else filled_rects ops = [].
Proof.
  intros Hwf Hkey Hq. pose proof Hwf as (Hc & Hlen & Hmax).
  destruct (Hkey qn Hq) as (ans & Hans & Hrange).
  destruct (box_complete_unique _ _ _ qn ans Hc Hq Hrange)
    as (b0 & Hf0 & Hb0 & Hq0 & Ho0).
  destruct (grouped_lookup l qn b0 Hb0 Hq0) as (bxs & -> & Hperm & Hne).
  simpl default.
  destruct (draw_question_filled l fill qn ans
              (count_at (per_question_option_counts l) qn) bxs)
    as (ops & Hops & Hfilled).
  - done.
  - apply py_nth_count_at. lia.
  - specialize (Hmax qn Hq). lia.
  - done.
  - intros b Hb. rewrite Hperm in Hb.
    apply list_elem_of_filter in Hb as [<- Hb].
    by apply (box_complete_elem _ _ _ _ Hc Hb).
  - exists ops. split; [done|]. rewrite Hfilled. destruct fill.
    + exists b0. split; [|by subst ans].
      assert (filter (fun b => true = true /\ opt b = ans) bxs ≡ₚ [b0]) as Hp.
      { rewrite Hperm, list_filter_filter, <- Hf0.
        erewrite list_filter_iff; [done|]. intros b. simpl. tauto. }
      apply Permutation_singleton_r in Hp. by rewrite Hp.
    + rewrite (list_filter_iff _ (fun _ => False)) by (intros b; split; [intros [? _]|]; done).
      clear. by induction bxs.
Qed.

Lemma filled_concat_one (R : Z -> Box -> Prop) (qs : list Z) (opss : list (list op)) :
  Forall2 (fun qn ops => exists b, filled_rects ops = [fill_rect b] /\ R qn b)
          qs opss ->
  exists bs, Forall2 R qs bs /\ filled_rects (concat opss) = fill_rect <$> bs.
Proof.
  induction 1 as [|qn ops qs opss (b & Hb & HR) _ (bs & Hbs & IH)].
  - exists []. split; [constructor | done].
  - exists (b :: bs). split; [by constructor|].
    change (concat (ops :: opss)) with (ops ++ concat opss).
    by rewrite filled_rects_app, Hb, IH.
Qed.

Lemma filled_concat_none (qs : list Z) (opss : list (list op)) :
  Forall2 (fun _ ops => filled_rects ops = []) qs opss ->
  filled_rects (concat opss) = [].
Proof.
  induction 1 as [|qn ops qs opss Hb _ IH]; [done|].
  change (concat (ops :: opss)) with (ops ++ concat opss).
  by rewrite filled_rects_app, Hb, IH.
Qed.

(** What [render_sheet] returns on a well-formed layout with a valid key. *)
Lemma render_sheet_questions (today : string) (l : Layout)
    (sid : option string) (fill : bool) (hd : header) (W H : Q) :
  PAPERS (paper l) = Ok (W, H) -> layout_wf l -> key_valid l ->
  exists opss,
    render_sheet today l sid fill hd
    = Ok (header_ops today l sid hd W H ++ concat opss ++ [showPage; save]) /\
    Forall2 (fun qn ops =>
               if fill then
                 exists b, filled_rects ops = [fill_rect b] /\ b ∈ boxes l /\
                           q b = qn /\
                           py_nth (answer_key l) (qn - 1) = Ok (opt b)
               else filled_rects ops = [])
            (seqZ 1 (num_questions l)) opss.
Proof.
  intros HP Hwf Hkey. unfold render_sheet.
  rewrite (bind_eq _ _ (W, H) HP).
  rewrite (sorted_keys_questions _ (num_questions l))
    by (intros qn; by apply grouped_dom).
  destruct (mapM_ok
    (fun qn => draw_question l fill qn
       (default [] ((sort_by_opt <$> group_by_q (boxes l)) !! qn)))
    (fun qn ops =>
       if fill then
         exists b, filled_rects ops = [fill_rect b] /\ b ∈ boxes l /\
                   q b = qn /\
                   py_nth (answer_key l) (qn - 1) = Ok (opt b)
       else filled_rects ops = [])
    (seqZ 1 (num_questions l)))
    as (opss & Hopss & Hall).
  { intros qn Hq. apply elem_of_seqZ in Hq.
    apply (question_rendered l fill qn Hwf Hkey). lia. }
  exists opss. split; [|exact Hall].
  by rewrite (bind_eq _ _ opss Hopss).
Qed.

(** *** The list objects: nothing that existed before is written *)

Lemma represents_init (h0 : gmap nat (list Box)) : represents h0 (∅, h0) ∅.
Proof.
  repeat split; simpl; intros *; rewrite ?lookup_empty; done.
Qed.

Lemma represents_append (h0 : gmap nat (list Box)) (d : gmap Z nat)
    (h : gmap nat (list Box)) (m : gmap Z (list Box)) (b : Box) (loc : nat) :
  represents h0 (d, h) m -> d !! q b = Some loc ->
  represents h0 (d, <[loc := default [] (h !! loc) ++ [b]]> h)
    (<[q b := default [] (m !! q b) ++ [b]]> m).
Proof.
  intros (Hframe & Hrep & Hnone & Hinj) Hd. simpl in *.
  destruct (Hrep _ _ Hd) as (Hloc & Hsome & Hh).
  split; [|split; [|split]]; simpl.
  - intros loc' Hin. rewrite lookup_insert_ne; [by apply Hframe|].
    by intros ->.
  - intros qn loc' Hq. destruct (Hrep _ _ Hq) as (Hloc' & Hsome' & Hh').
    split; [done|]. destruct (decide (qn = q b)) as [->|Hne].
    + assert (loc' = loc) as -> by congruence.
      rewrite !lookup_insert_eq, Hh. eauto.
    + rewrite (lookup_insert_ne m) by done. split; [done|].
      rewrite lookup_insert_ne; [done|].
      intros ->. apply Hne. by apply (Hinj _ _ loc').
  - intros qn Hq. rewrite lookup_insert_ne by congruence. by apply Hnone.
  - done.
Qed.

Lemma represents_alloc (h0 : gmap nat (list Box)) (d : gmap Z nat)
    (h : gmap nat (list Box)) (m : gmap Z (list Box)) (b : Box) :
  represents h0 (d, h) m -> d !! q b = None ->
  represents h0 (<[q b := fresh (dom h)]> d, <[fresh (dom h) := [b]]> h)
    (<[q b := default [] (m !! q b) ++ [b]]> m).
Proof.
  intros (Hframe & Hrep & Hnone & Hinj) Hd. simpl in *.
  assert (dom h0 ⊆ dom h) as Hsub.
  { intros loc Hin. apply elem_of_dom. rewrite Hframe by done.
    by apply elem_of_dom. }
  pose proof (is_fresh (dom h)) as Hfresh.
  set (loc := fresh (dom h)) in *.
  assert (forall qn loc', d !! qn = Some loc' -> loc' <> loc) as Hold.
  { intros qn loc' Hq ->. destruct (Hrep _ _ Hq) as (_ & Hsome & Hh).
    apply Hfresh. apply elem_of_dom. by rewrite Hh. }
  rewrite (Hnone _ Hd). simpl.
  split; [|split; [|split]]; simpl.
  - intros loc' Hin. rewrite lookup_insert_ne; [by apply Hframe|].
    intros ->. apply Hfresh. by apply Hsub.
  - intros qn loc' Hq. destruct (decide (qn = q b)) as [->|Hne].
    + rewrite lookup_insert_eq in Hq. injection Hq as <-.
      rewrite !lookup_insert_eq.
      split; [intros Hin; apply Hfresh; by apply Hsub | eauto].
    + rewrite lookup_insert_ne in Hq by done.
      destruct (Hrep _ _ Hq) as (Hloc' & Hsome' & Hh').
      rewrite (lookup_insert_ne m) by done.
      rewrite lookup_insert_ne by (intros Heq; by apply (Hold _ _ Hq)).
      done.
  - intros qn Hq. destruct (decide (qn = q b)) as [->|Hne].
    + by rewrite lookup_insert_eq in Hq.
    + rewrite lookup_insert_ne in Hq by done.
      rewrite lookup_insert_ne by done. by apply Hnone.
  - intros q1 q2 loc' H1 H2.
    destruct (decide (q1 = q b)) as [->|Hne1],
             (decide (q2 = q b)) as [->|Hne2]; [done | | |].
    + rewrite lookup_insert_eq in H1. injection H1 as <-.
      rewrite lookup_insert_ne in H2 by done. by destruct (Hold _ _ H2).
    + rewrite lookup_insert_eq in H2. injection H2 as <-.
      rewrite lookup_insert_ne in H1 by done. by destruct (Hold _ _ H1).
    + rewrite lookup_insert_ne in H1, H2 by done. by apply (Hinj q1 q2 loc').
Qed.

Lemma represents_step (h0 : gmap nat (list Box))
    (st : gmap Z nat * gmap nat (list Box)) (m : gmap Z (list Box)) (b : Box) :
  represents h0 st m ->
  represents h0 (setdefault_append st b)
    (<[q b := default [] (m !! q b) ++ [b]]> m).
Proof.
  destruct st as [d h]. intros Hrep. unfold setdefault_append.
  destruct (d !! q b) as [loc|] eqn:Hd.
  - by apply represents_append.
  - by apply represents_alloc.
Qed.

Lemma represents_foldl (h0 : gmap nat (list Box)) (bs : list Box)
    (st : gmap Z nat * gmap nat (list Box)) (m : gmap Z (list Box)) :
  represents h0 st m ->
  represents h0 (foldl setdefault_append st bs)
    (foldl (fun m b => <[q b := default [] (m !! q b) ++ [b]]> m) m bs).
Proof.
  revert st m. induction bs as [|b bs IH]; intros st m Hrep; [done|].
  simpl. by apply IH, represents_step.
Qed.

Lemma sort_in_place_lookup (es : list (Z * nat)) (h : gmap nat (list Box))
    (loc : nat) :
  NoDup es.*2 ->
  foldl sort_in_place h es !! loc
  = if decide (loc ∈ es.*2) then sort_by_opt <$> h !! loc else h !! loc.
Proof.
  revert h. induction es as [|[qn l0] es IH]; intros h Hnd.
  - destruct (decide _) as [Hin|_]; [by apply elem_of_nil in Hin | done].
  - rewrite fmap_cons in Hnd. apply NoDup_cons in Hnd as [Hl0 Hnd].
    change (foldl sort_in_place h ((qn, l0) :: es))
      with (foldl sort_in_place (alter sort_by_opt l0 h) es).
    rewrite IH by done.
    destruct (decide (loc = l0)) as [->|Hne].
    + rewrite decide_False by done. rewrite lookup_alter_eq.
      rewrite decide_True; [done | rewrite fmap_cons; constructor].
    + rewrite lookup_alter_ne by done.
      destruct (decide (loc ∈ es.*2)) as [Hin|Hnin].
      * rewrite decide_True; [done | rewrite fmap_cons; by constructor].
      * rewrite decide_False; [done|].
        rewrite fmap_cons, elem_of_cons. simpl. tauto.
Qed.

(** Lines 212-216 on the heap: every object that existed before the call
    is left as it was, and what [boxes_by_q[qn]] then reads is the sorted
    group of question [qn]. *)
Lemma group_and_sort_spec (h0 : gmap nat (list Box)) (bs : list Box) :
  (forall loc, loc ∈ dom h0 -> (group_and_sort h0 bs).2 !! loc = h0 !! loc) /\
  (forall qn, read_group (group_and_sort h0 bs) qn
              = (sort_by_opt <$> group_by_q bs) !! qn).
Proof.
  pose proof (represents_foldl h0 bs _ _ (represents_init h0)) as Hrep.
  fold (group_by_q bs) in Hrep. unfold group_and_sort.
  destruct (foldl setdefault_append (∅, h0) bs) as [d h1].
  destruct Hrep as (Hframe & Hrep & Hnone & Hinj). simpl in *.
  assert (NoDup (map_to_list d).*2) as Hnd.
  { apply NoDup_fmap_2_strong; [|apply NoDup_map_to_list].
    intros [q1 l1] [q2 l2] H1 H2 Heq. simpl in Heq. subst l2.
    apply elem_of_map_to_list in H1, H2. f_equal. by apply (Hinj q1 q2 l1). }
  split.
  - intros loc Hin. rewrite sort_in_place_lookup by done.
    rewrite decide_False; [by apply Hframe|].
    intros Hloc. apply list_elem_of_fmap in Hloc as ([qn l] & -> & Hq).
    apply elem_of_map_to_list in Hq. by destruct (Hrep _ _ Hq) as (Hn & _).
  - intros qn. unfold read_group. simpl. rewrite lookup_fmap.
    destruct (d !! qn) as [loc|] eqn:Hq; simpl.
    + destruct (Hrep _ _ Hq) as (_ & _ & Hh).
      rewrite sort_in_place_lookup by done.
      rewrite decide_True; [by rewrite Hh|].
      apply list_elem_of_fmap. exists (qn, loc).
      split; [done | by apply elem_of_map_to_list].
    + by rewrite (Hnone _ Hq).
Qed.

(** ** The collator *)

Lemma mapM_length {A B} (f : A -> result B) (l : list A) (ys : list B) :
  mapM f l = Ok ys -> length ys = length l.
Proof.
  revert ys. induction l as [|x l IH]; intros ys; simpl.
  - by intros [= <-].
  - intros Hm. apply bind_Ok in Hm as (y & _ & Hm).
    apply bind_Ok in Hm as (ys' & Hys & [= <-]). simpl. by rewrite (IH ys').
Qed.

Lemma mapM_lookup {A B} (f : A -> result B) (l : list A) (ys : list B)
    (i : nat) (x : A) :
  mapM f l = Ok ys -> l !! i = Some x ->
  exists y, ys !! i = Some y /\ f x = Ok y.
Proof.
  revert ys i. induction l as [|x0 l IH]; intros ys i; simpl; [done|].
  intros Hm Hi. apply bind_Ok in Hm as (y & Hy & Hm).
  apply bind_Ok in Hm as (ys' & Hys & [= <-]).
  destruct i as [|i]; simpl in *.
  - injection Hi as <-. eauto.
  - by apply (IH ys').
Qed.

Lemma mapM_cons {A B} (f : A -> result B) (x : A) (l : list A) :
  mapM f (x :: l) = (y ← f x; ys ← mapM f l; Ok (y :: ys)).
Proof. reflexivity. Qed.

(** *** Validation of the answer key *)

Lemma check_entry_spec (per_q : list Z) (i : nat) (ans : Z) :
  (i < length per_q)%nat ->
  (check_entry per_q (Z.of_nat i, ans) = Ok tt /\ entry_in_range per_q i ans) \/
  (check_entry per_q (Z.of_nat i, ans) = Raise ValueError /\
   ~ entry_in_range per_q i ans).
Proof.
  intros Hi. destruct (lookup_lt_is_Some_2 per_q i Hi) as [k Hk].
  unfold check_entry. rewrite (py_nth_lookup _ _ _ Hk). simpl.
  destruct (Z.leb_spec 0 ans), (Z.ltb_spec ans k); simpl.
  - left. split; [done|]. exists k. split; [done | lia].
  - right. split; [done|]. intros (k' & Hk' & ?). simplify_eq. lia.
  - right. split; [done|]. intros (k' & Hk' & ?). simplify_eq. lia.
  - right. split; [done|]. intros (k' & Hk' & ?). simplify_eq. lia.
Qed.

Lemma validate_from (per_q key : list Z) (s : nat) :
  (s + length key <= length per_q)%nat ->
  ((forall j ans, key !! j = Some ans -> entry_in_range per_q (s + j) ans) ->
   exists us, mapM (check_entry per_q)
                (zip (seqZ (Z.of_nat s) (Z.of_nat (length key))) key) = Ok us) /\
  (forall j ans, key !! j = Some ans -> ~ entry_in_range per_q (s + j) ans ->
   mapM (check_entry per_q)
     (zip (seqZ (Z.of_nat s) (Z.of_nat (length key))) key) = Raise ValueError).
Proof.
  revert s. induction key as [|x key IH]; intros s Hlen.
  - split; [by exists [] | intros j ans Hj; by rewrite lookup_nil in Hj].
  - simpl length in *. rewrite seqZ_cons by lia.
    replace (Z.pred (Z.of_nat (S (length key)))) with (Z.of_nat (length key)) by lia.
    replace (Z.succ (Z.of_nat s)) with (Z.of_nat (S s)) by lia.
    destruct (IH (S s) ltac:(lia)) as [IHok IHbad].
    change (zip (?a :: ?l) (x :: key)) with ((a, x) :: zip l key).
    rewrite mapM_cons.
    destruct (check_entry_spec per_q s x ltac:(lia)) as [[Hc Hr]|[Hc Hr]];
      rewrite Hc; simpl.
    + split.
      * intros Hall. destruct IHok as (us & ->).
        { intros j ans Hj. replace (S s + j)%nat with (s + S j)%nat by lia.
          by apply Hall. }
        simpl. eauto.
      * intros [|j] ans Hj Hbad; simpl in Hj.
        { injection Hj as <-. by rewrite Nat.add_0_r in Hbad. }
        rewrite (IHbad j ans Hj); [done|].
        by replace (S s + j)%nat with (s + S j)%nat by lia.
    + split; [|done].
      intros Hall. exfalso. apply Hr.
      specialize (Hall 0%nat x eq_refl). by rewrite Nat.add_0_r in Hall.
Qed.

Lemma validate_key_spec (per_q key : list Z) :
  (length key <= length per_q)%nat ->
  ((forall i ans, key !! i = Some ans -> entry_in_range per_q i ans) ->
   validate_key per_q key = Ok tt) /\
  ((exists i ans, key !! i = Some ans /\ ~ entry_in_range per_q i ans) ->
   validate_key per_q key = Raise ValueError).
Proof.
  intros Hlen. destruct (validate_from per_q key 0 ltac:(lia)) as [Hok Hbad].
  change (Z.of_nat 0) with 0 in Hok, Hbad.
  unfold validate_key, enumerate. split.
  - intros Hall. destruct (Hok Hall) as (us & ->). done.
  - intros (i & ans & Hi & Hr). by rewrite (Hbad i ans Hi Hr).
Qed.

(** *** Lengths of the parsed lists *)

Lemma length_range (n : Z) : length (range n) = Z.to_nat n.
Proof. apply length_seqZ. Qed.

Lemma parse_answer_key_length (spec : string) (N : Z) (toks : list string) :
  parse_answer_key spec N = Ok toks -> length toks = Z.to_nat N.
Proof.
  unfold parse_answer_key. intros Hm. apply mapM_length in Hm.
  by rewrite Hm, length_range.
Qed.

Lemma per_question_counts_length (args : cli_args) (per_q : list Z) :
  per_question_counts args = Ok per_q ->
  length per_q = Z.to_nat (arg_num_questions args).
Proof.
  assert (forall spec, parse_per_question_counts spec (arg_num_questions args)
                       = Ok per_q ->
                       length per_q = Z.to_nat (arg_num_questions args)) as Hcyc.
  { intros spec. unfold parse_per_question_counts. intros Hm.
    apply bind_Ok in Hm as (counts & _ & Hm). apply mapM_length in Hm.
    by rewrite Hm, length_range. }
  unfold per_question_counts.
  destruct (arg_options_list args) as [ol|]; [|apply Hcyc].
  destruct (nonempty ol); [|apply Hcyc].
  intros Hm. apply bind_Ok in Hm as (pq & _ & Hm).
  destruct (Z.eqb_spec (Z.of_nat (length pq)) (arg_num_questions args));
    [|discriminate].
  injection Hm as <-. lia.
Qed.

Lemma resolve_key_length (per_q : list Z) (toks : list string) (key : list Z) :
  resolve_key per_q toks = Ok key -> length key = length toks.
Proof.
  unfold resolve_key, enumerate. intros Hm. apply mapM_length in Hm.
  rewrite Hm, length_zip, length_seqZ. lia.
Qed.

Lemma answer_key_apply_prefix (args : cli_args) (l : Layout) :
  answer_key (apply_prefix args l) = answer_key l.
Proof. unfold apply_prefix. by destruct (nonempty _). Qed.

(** *** Runs *)

Lemma run_emit {A} (e : event) (k : unit -> io A) (tr : list event) :
  run (emit e ≫= k) tr = run (k tt) (tr ++ [e]).
Proof. reflexivity. Qed.

Lemma run_lift_Ok {A B} (r : result A) (x : A) (k : A -> io B) (tr : list event) :
  r = Ok x -> run (lift r ≫= k) tr = run (k x) tr.
Proof. by intros ->. Qed.

Lemma run_lift_Raise {A B} (r : result A) (e : exn) (k : A -> io B)
    (tr : list event) :
  r = Raise e -> run (lift r ≫= k) tr = (tr, Raise e).
Proof. by intros ->. Qed.

Lemma run_assoc {A B C} (m : io A) (f : A -> io B) (g : B -> io C)
    (tr : list event) :
  run ((m ≫= f) ≫= g) tr = run (m ≫= (fun x => f x ≫= g)) tr.
Proof.
  unfold mbind, io_bind. simpl. destruct (run m tr) as [tr' [x|e]]; done.
Qed.

Lemma extends_ret {A} (x : A) : extends (mret x).
Proof. intros tr. exists []. simpl. by rewrite app_nil_r. Qed.

Lemma extends_emit (e : event) : extends (emit e).
Proof. intros tr. by exists [e]. Qed.

Lemma extends_lift {A} (r : result A) : extends (lift r).
Proof. intros tr. exists []. simpl. by rewrite app_nil_r. Qed.

Lemma extends_bind {A B} (m : io A) (k : A -> io B) :
  extends m -> (forall x, extends (k x)) -> extends (m ≫= k).
Proof.
  intros Hm Hk tr. destruct (Hm tr) as (ext1 & H1).
  unfold mbind, io_bind. simpl. destruct (run m tr) as [tr' [x|e]]; simpl in *.
  - destruct (Hk x tr') as (ext2 & H2). exists (ext1 ++ ext2).
    by rewrite H2, H1, app_assoc.
  - by exists ext1.
Qed.

Ltac extends_step :=
  first
    [ apply extends_emit
    | apply extends_lift
    | apply extends_ret
    | apply extends_bind; [|intros ?] ].

Lemma extends_do_render (ev : env) (args : cli_args) (path : string)
    (l : Layout) (sid : option string) (fill : bool) :
  extends (do_render ev args path l sid fill).
Proof. unfold do_render. repeat extends_step. Qed.

Lemma extends_student_loop (ev : env) (args : cli_args) (l : Layout)
    (sids : list Z) (aps cps : list string) :
  extends (student_loop ev args l sids aps cps).
Proof.
  revert aps cps. induction sids as [|sid sids IH]; intros aps cps; simpl.
  - apply extends_ret.
  - apply extends_bind; [apply extends_do_render | intros _].
    apply extends_bind.
    { destruct (do_cover args); repeat extends_step. }
    intros cps'. apply extends_bind; [|intros _; apply IH].
    destruct (arg_per_student args); [|apply extends_ret].
    apply extends_bind; [apply extends_emit | intros _].
    destruct (do_cover args), (last cps'); repeat extends_step.
Qed.

(** What [main] does once the layout is prepared. *)
Lemma main_prepared (ev : env) (args : cli_args) (l : Layout) :
  prepare args = Ok l ->
  exists tr r,
    run (main ev args) []
    = ([ makedirs (arg_outdir args); makedirs "scans";
         write_layout_json (path_join (arg_outdir args) "layout.json") l;
         call_render_sheet
           (path_join (arg_outdir args) "answer_sheet_solution.pdf")
           l None true (hdr ev args) ] ++ tr, r).
Proof.
  intros Hp. unfold main.
  rewrite !run_emit. rewrite (run_lift_Ok _ l) by done.
  rewrite run_emit. unfold do_render at 1.
  rewrite run_assoc, run_emit.
  match goal with |- context [run ?m ?tr] =>
    assert (extends m) as Hext; [|destruct (Hext tr) as (ext & Hrun);
                                  destruct (run m tr) as [tr' r] eqn:Hm]
  end.
  - apply extends_bind; [repeat extends_step | intros _].
    apply extends_bind.
    { destruct (arg_cover_tex args); [destruct (env_cover_tex_exists ev)|];
        repeat extends_step. }
    intros _. apply extends_bind; [apply extends_emit | intros _].
    apply extends_bind; [apply extends_student_loop | intros [aps cps]].
    apply extends_bind; [destruct aps; repeat extends_step | intros _].
    apply extends_bind;
      [destruct (do_cover args), cps; repeat extends_step | intros _].
    apply extends_bind;
      [destruct (arg_keep_temp args); repeat extends_step | intros _].
    apply extends_emit.
  - simpl in Hrun. subst tr'. exists ext, r. reflexivity.
Qed.

Lemma main_not_prepared (ev : env) (args : cli_args) (e : exn) :
  prepare args = Raise e ->
  run (main ev args) []
  = ([makedirs (arg_outdir args); makedirs "scans"], Raise e).
Proof.
  intros Hp. unfold main. rewrite !run_emit.
  by rewrite (run_lift_Raise _ e).
Qed.

Lemma answer_key_keyed (args : cli_args) (l : Layout) (key : list Z) :
  answer_key (keyed_layout args l key) = key.
Proof. unfold keyed_layout. by rewrite answer_key_apply_prefix. Qed.


(** *** The answer key is cycled, not length-checked *)

Lemma py_mod_nth_lookup {A} (raw : list A) (i : Z) :
  raw <> [] -> 0 <= i ->
  exists x, py_mod_nth raw i = Ok x /\
            raw !! Z.to_nat (i mod Z.of_nat (length raw)) = Some x.
Proof.
  intros Hne Hi. unfold py_mod_nth.
  assert (0 < Z.of_nat (length raw)) as Hlen by (destruct raw; [done | simpl; lia]).
  destruct (Z.eqb_spec (Z.of_nat (length raw)) 0); [lia|].
  pose proof (Z.mod_pos_bound i _ Hlen) as Hmod.
  destruct (lookup_lt_is_Some_2 raw (Z.to_nat (i mod Z.of_nat (length raw))))
    as [x Hx]; [lia|].
  exists x. split; [|done].
  rewrite <- (Z2Nat.id (i mod _)) by lia. by apply py_nth_lookup.
Qed.

Lemma parse_answer_key_empty (spec : string) (N : Z) :
  parse_csv spec = [] -> 1 <= N ->
  parse_answer_key spec N = Raise ZeroDivisionError.
Proof.
  intros Hraw HN. unfold parse_answer_key, range. rewrite Hraw.
  rewrite seqZ_cons by lia. reflexivity.
Qed.

(** * Further properties of the code *)

(** ** Escaping for LaTeX *)

Lemma string_app_cons (c : ascii) (s t : string) :
  (String c s ++ t)%string = String c (s ++ t).
Proof. reflexivity. Qed.

Lemma string_app_nil_r (s : string) : (s ++ "")%string = s.
Proof.
  induction s as [|c s IH]; [done | by rewrite string_app_cons, IH].
Qed.

Lemma concat_empty_cons (x : string) (xs : list string) :
  String.concat EmptyString (x :: xs) = (x ++ String.concat EmptyString xs)%string.
Proof. destruct xs as [|y xs]; [by rewrite string_app_nil_r | done]. Qed.

Lemma string_app_assoc (s t u : string) :
  ((s ++ t) ++ u = s ++ (t ++ u))%string.
Proof.
  induction s as [|c s IH]; [done | by rewrite !string_app_cons, IH].
Qed.

Lemma string_length_app (s t : string) :
  String.length (s ++ t) = (String.length s + String.length t)%nat.
Proof.
  induction s as [|c s IH]; [done|]. rewrite string_app_cons. simpl.
  by rewrite IH.
Qed.

Lemma latex_escape_cons (c : ascii) (s : string) :
  _latex_escape (Some (String c s))
  = (repl_get c ++ _latex_escape (Some s))%string.
Proof. unfold _latex_escape. apply concat_empty_cons. Qed.

Lemma repl_get_special (c : ascii) :
  is_special c = true -> In (c, repl_get c) repl_table.
Proof.
  unfold is_special, repl_get. intros Hs.
  destruct (List.find _ repl_table) as [[c' w]|] eqn:Hf.
  - apply find_some in Hf as [Hin Heq]. simpl in *.
    apply Ascii.eqb_eq in Heq. by subst c'.
  - apply existsb_exists in Hs as (p & Hin & Hp).
    by rewrite (find_none _ _ Hf p Hin) in Hp.
Qed.

Lemma repl_get_plain (c : ascii) :
  is_special c = false -> repl_get c = String c EmptyString.
Proof.
  unfold is_special, repl_get. intros Hs.
  destruct (List.find _ repl_table) as [[c' w]|] eqn:Hf; [|done].
  apply find_some in Hf as [Hin Heq].
  assert (existsb (fun p => Ascii.eqb p.1 c) repl_table = true) as He
    by (apply existsb_exists; eauto).
  congruence.
Qed.

Ltac special_cases :=
  repeat match goal with
  | H : In _ (_ :: _) |- _ => destruct H as [H|H]; [simplify_eq|]
  | H : In _ [] |- _ => destruct H
  end.

(** The code words form a prefix code: reading from the left, the code
    word of the first character is determined. *)
Lemma repl_get_prefix_free (c d : ascii) (s t : string) :
  (repl_get c ++ s)%string = (repl_get d ++ t)%string -> c = d /\ s = t.
Proof.
  destruct (is_special c) eqn:Hc, (is_special d) eqn:Hd.
  - pose proof (repl_get_special c Hc) as H1.
    pose proof (repl_get_special d Hd) as H2.
    clear Hc Hd. remember (repl_get c) as w1. remember (repl_get d) as w2.
    clear Heqw1 Heqw2. unfold repl_table in H1, H2.
    special_cases; cbv [String.append]; intros Heq;
      (discriminate Heq || (injection Heq as ->; done)).
  - pose proof (repl_get_special c Hc) as H1.
    rewrite (repl_get_plain d Hd).
    clear Hc. remember (repl_get c) as w1. clear Heqw1.
    unfold repl_table in H1.
    special_cases; cbv [String.append]; intros Heq; injection Heq as <- _;
      discriminate Hd.
  - pose proof (repl_get_special d Hd) as H2.
    rewrite (repl_get_plain c Hc).
    clear Hd. remember (repl_get d) as w2. clear Heqw2.
    unfold repl_table in H2.
    special_cases; cbv [String.append]; intros Heq; injection Heq as -> _;
      discriminate Hc.
  - rewrite (repl_get_plain c Hc), (repl_get_plain d Hd).
    cbv [String.append]. intros [= -> ->]. done.
Qed.

Lemma repl_get_length (c : ascii) :
  if is_special c then (2 <= String.length (repl_get c))%nat
  else String.length (repl_get c) = 1%nat.
Proof.
  destruct (is_special c) eqn:Hc.
  - pose proof (repl_get_special c Hc) as H1.
    remember (repl_get c) as w1. clear Heqw1 Hc. unfold repl_table in H1.
    special_cases; simpl; lia.
  - by rewrite (repl_get_plain c Hc).
Qed.

Lemma latex_escape_length (s : string) :
  (String.length s <= String.length (_latex_escape (Some s)))%nat /\
  (str_forall (fun c => negb (is_special c)) s = false ->
   (String.length s < String.length (_latex_escape (Some s)))%nat).
Proof.
  induction s as [|c s [IH1 IH2]]; [split; [done | discriminate]|].
  rewrite latex_escape_cons, string_length_app. simpl.
  pose proof (repl_get_length c) as Hc.
  destruct (is_special c); simpl in *.
  - split; [lia | intros _; lia].
  - split; [lia|]. intros Hs. specialize (IH2 Hs). lia.
Qed.

(** ** [parse_csv] *)

Lemma rstrip_idem (s : string) : rstrip (rstrip s) = rstrip s.
Proof.
  induction s as [|c s IH]; [done|]. simpl.
  destruct (rstrip s) as [|c' r] eqn:Hr.
  - destruct (is_space c) eqn:Hc; [done|]. simpl. by rewrite Hc.
  - simpl. simpl in IH. by rewrite IH.
Qed.

Lemma lstrip_head (s : string) :
  match lstrip s with
  | EmptyString => True
  | String c _ => is_space c = false
  end.
Proof.
  induction s as [|c s IH]; [done|]. simpl.
  destruct (is_space c) eqn:Hc; [done | by simpl].
Qed.

Lemma rstrip_head (c : ascii) (s : string) :
  is_space c = false -> exists z, rstrip (String c s) = String c z.
Proof.
  intros Hc. simpl. destruct (rstrip s); rewrite ?Hc; eauto.
Qed.

Lemma strip_idem (s : string) : strip (strip s) = strip s.
Proof.
  unfold strip. pose proof (lstrip_head s) as Hh.
  destruct (lstrip s) as [|c y] eqn:Hy; [done|].
  destruct (rstrip_head c y Hh) as (z & Hz).
  rewrite Hz. simpl lstrip. rewrite Hh, <- Hz. apply rstrip_idem.
Qed.

Lemma str_forall_lstrip (p : ascii -> bool) (s : string) :
  str_forall p s = true -> str_forall p (lstrip s) = true.
Proof.
  induction s as [|c s IH]; [done|]. simpl. intros Hs.
  destruct (is_space c); [|done].
  apply andb_true_iff in Hs as [_ Hs]. by apply IH.
Qed.

Lemma str_forall_rstrip (p : ascii -> bool) (s : string) :
  str_forall p s = true -> str_forall p (rstrip s) = true.
Proof.
  induction s as [|c s IH]; [done|]. simpl. intros Hs.
  apply andb_true_iff in Hs as [Hc Hs]. specialize (IH Hs).
  destruct (rstrip s) as [|c' r].
  - destruct (is_space c); simpl; [done | by rewrite Hc].
  - simpl. simpl in IH. by rewrite Hc, IH.
Qed.

Lemma split_comma_fields (s : string) :
  Forall (fun f => no_comma f = true) (split_comma s).
Proof.
  induction s as [|c s IH]; [by repeat constructor|]. simpl.
  destruct (Ascii.eqb c ",") eqn:Hc; [by constructor|].
  destruct (split_comma s) as [|f fs].
  - constructor; [|constructor]. unfold no_comma. simpl. by rewrite Hc.
  - apply Forall_cons in IH as [Hf Hfs]. constructor; [|done].
    unfold no_comma in *. simpl. by rewrite Hc, Hf.
Qed.

Lemma split_comma_single (x : string) :
  no_comma x = true -> split_comma x = [x].
Proof.
  induction x as [|c x IH]; [done|]. unfold no_comma. simpl. intros Hx.
  apply andb_true_iff in Hx as [Hc Hx]. apply negb_true_iff in Hc.
  by rewrite Hc, (IH Hx).
Qed.

Lemma split_comma_cons (x rest : string) :
  no_comma x = true ->
  split_comma (x ++ String "," rest) = x :: split_comma rest.
Proof.
  induction x as [|c x IH]; [done|]. unfold no_comma. intros Hx. simpl in Hx.
  apply andb_true_iff in Hx as [Hc Hx]. apply negb_true_iff in Hc.
  rewrite string_app_cons. simpl. by rewrite Hc, (IH Hx).
Qed.

Lemma split_comma_join (toks : list string) :
  toks <> [] -> Forall (fun f => no_comma f = true) toks ->
  split_comma (String.concat "," toks) = toks.
Proof.
  induction toks as [|x toks IH]; [done|]. intros _ Hall.
  apply Forall_cons in Hall as [Hx Hall].
  destruct toks as [|y toks]; [by apply split_comma_single|].
  change (String.concat "," (x :: y :: toks))
    with (x ++ String "," (String.concat "," (y :: toks)))%string.
  rewrite split_comma_cons by done. by rewrite IH.
Qed.

(** ** [option_labels] outside 1..702 *)

Lemma letters_nth_26 : py_nth letters 26 = Raise IndexError.
Proof. reflexivity. Qed.

Lemma labels_loop_overflow (k : nat) (fuel : nat) (n : Z) (out : list string)
    (i : Z) :
  702 < n -> i = 676 - Z.of_nat k -> 0 <= i ->
  Z.of_nat (length out) = 26 + i -> (k < fuel)%nat ->
  labels_loop fuel n out i = Raise IndexError.
Proof.
  revert fuel out i. induction k as [|k IH]; intros fuel out i Hn Hi Hi0 Hlen Hfuel.
  - destruct fuel as [|fuel]; [lia|]. simpl.
    destruct (Z.ltb_spec (Z.of_nat (length out)) n); [|lia].
    replace i with 676 by lia. reflexivity.
  - destruct fuel as [|fuel]; [lia|]. simpl.
    destruct (Z.ltb_spec (Z.of_nat (length out)) n); [|lia].
    assert (0 <= i / 26 < 26)
      by (split; [apply Z.div_pos | apply Z.div_lt_upper_bound]; lia).
    pose proof (Z.mod_pos_bound i 26 ltac:(lia)).
    rewrite !letters_nth by lia. simpl.
    apply IH; rewrite ?length_app; simpl; lia.
Qed.

(** ** Student identifiers *)

Lemma zeros_S (k : nat) :
  String.concat "" (replicate (S k) "0"%string)
  = String "0" (String.concat "" (replicate k "0"%string)).
Proof. simpl replicate. by rewrite concat_empty_cons. Qed.

Lemma zeros_length (k : nat) :
  String.length (String.concat "" (replicate k "0"%string)) = k.
Proof.
  induction k as [|k IH]; [done|]. rewrite zeros_S. simpl. by rewrite IH.
Qed.

Lemma zeros_digits (k : nat) (d : string) :
  isdigit d = true ->
  isdigit (String.concat "" (replicate k "0"%string) ++ d) = true /\
  int_digits 0 (String.concat "" (replicate k "0"%string) ++ d)
  = int_digits 0 d.
Proof.
  intros Hd. induction k as [|k [IH1 IH2]]; [done|].
  rewrite zeros_S, string_app_cons. split.
  - simpl. destruct (_ ++ d)%string; [done | exact IH1].
  - simpl. exact IH2.
Qed.

Lemma int_unsigned_isdigit (s : string) :
  isdigit s = true -> int_unsigned s = Ok (int_digits 0 s).
Proof.
  intros Hs. destruct s as [|c s]; [done|]. simpl in Hs.
  apply andb_true_iff in Hs as [Hc Hs].
  unfold int_unsigned. simpl literal_digits. rewrite Hc.
  by rewrite literal_digits_plain.
Qed.

Lemma fmt_03d_int (n : Z) : py_int (fmt_03d n) = Ok n.
Proof.
  unfold fmt_03d.
  pose proof (pretty_nat_isdigit (Z.abs n) ltac:(lia)) as Hd.
  pose proof (pretty_nat_digits_val (Z.abs n) ltac:(lia)) as Hv.
  unfold str_of_Z in Hd, Hv.
  destruct (Z.ltb_spec n 0) as [Hneg|Hpos].
  - destruct (zeros_digits (3 - String.length "-" - String.length (pretty (Z.abs n)))
                (pretty (Z.abs n)) Hd) as [H1 H2].
    change ("-" ++ ?x)%string with (String "-" x).
    unfold py_int. rewrite (int_unsigned_isdigit _ H1), H2, Hv. simpl.
    f_equal. lia.
  - destruct (zeros_digits (3 - String.length "" - String.length (pretty (Z.abs n)))
                (pretty (Z.abs n)) Hd) as [H1 H2].
    change ("" ++ ?x)%string with x.
    rewrite (py_int_isdigit _ H1), H2, Hv. f_equal. lia.
Qed.

Lemma fmt_03d_length (n : Z) : (3 <= String.length (fmt_03d n))%nat.
Proof.
  unfold fmt_03d. rewrite !string_length_app, zeros_length. lia.
Qed.

(** ** Boxes do not overlap *)









Lemma disjoint_boxes_sym (b1 b2 : Box) :
  disjoint_boxes b1 b2 -> disjoint_boxes b2 b1.
Proof. unfold disjoint_boxes. tauto. Qed.


(** ** Rows that fit and the corner markers *)




(** The bound of 11 mm on box size plus row gap is needed: with the
    default box size of 3.5 mm and no row gap, thirteen questions of two
    options fill the thirteen rows that fit an A4 page, and the lower box
    of question 13 reaches into the bottom left corner marker. *)
Lemma default_box_reaches_marker :
  let a := mkArgs "A4" "Antworten" 13 (replicate 13 2) 5 false 0 0 (35 # 10) in
  exists L b,
    compute_layout a = Ok L /\ b ∈ boxes L /\ q b = 13 /\ opt b = 1 /\
    (x_pt b == margin /\ y_pt b < margin + marker_size /\
     margin < y_pt b + h_pt b)%Q.
Proof.
  simpl. eexists. eexists. split; [vm_compute; reflexivity|].
  split; [|split; [|split]].
  - simpl. do 25 apply list_elem_of_further. apply list_elem_of_here.
  - reflexivity.
  - reflexivity.
  - vm_compute. repeat split.
Qed.

(** ** Runs of [main] past validation *)

Lemma prepare_inv (args : cli_args) (l : Layout) :
  prepare args = Ok l ->
  exists per_q toks L key,
    per_question_counts args = Ok per_q /\
    parse_answer_key (arg_answer_key args) (arg_num_questions args) = Ok toks /\
    compute_layout (layout_args_of args per_q) = Ok L /\
    resolve_key per_q toks = Ok key /\
    validate_key per_q key = Ok tt /\
    l = keyed_layout args L key.
Proof.
  unfold prepare. intros Hp.
  apply bind_Ok in Hp as (per_q & Hq & Hp).
  apply bind_Ok in Hp as (toks & Ht & Hp).
  apply bind_Ok in Hp as (L & HL & Hp).
  apply bind_Ok in Hp as (key & Hk & Hp).
  cbv zeta in Hp. apply bind_Ok in Hp as ([] & Hv & [= <-]).
  rewrite answer_key_apply_prefix in Hv.
  exists per_q, toks, L, key. repeat split; done.
Qed.

Lemma keyed_layout_fields (args : cli_args) (L : Layout) (key : list Z) :
  paper (keyed_layout args L key) = paper L /\
  boxes (keyed_layout args L key) = boxes L /\
  num_questions (keyed_layout args L key) = num_questions L /\
  per_question_option_counts (keyed_layout args L key)
  = per_question_option_counts L /\
  answer_key (keyed_layout args L key) = key.
Proof. unfold keyed_layout, apply_prefix. by destruct (nonempty _). Qed.

Lemma validate_key_inv (per_q key : list Z) :
  (length key <= length per_q)%nat -> validate_key per_q key = Ok tt ->
  forall i ans, key !! i = Some ans -> entry_in_range per_q i ans.
Proof.
  intros Hlen Hv i ans Hi.
  destruct (check_entry_spec per_q i ans) as [[_ Hr]|[_ Hr]]; [|done|].
  - apply lookup_lt_Some in Hi. lia.
  - destruct (validate_key_spec per_q key Hlen) as [_ Hbad].
    rewrite Hbad in Hv; [done|]. eauto.
Qed.

(** A layout that passed validation has at least one question, a count
    of at least 1 for each, and satisfies the renderer's invariants. *)
Lemma prepare_layout (args : cli_args) (l : Layout) :
  prepare args = Ok l ->
  1 <= arg_columns args ->
  (0 < arg_box_size_mm args)%Q -> (0 <= arg_row_gap_mm args)%Q ->
  1 <= num_questions l /\
  num_questions l = arg_num_questions args /\
  Forall (Z.le 1) (per_question_option_counts l) /\
  layout_wf l /\ key_valid l /\
  exists W H, PAPERS (paper l) = Ok (W, H).
Proof.
  intros Hp Hc Hbs Hrg.
  apply prepare_inv in Hp as (per_q & toks & L & key & Hq & Ht & HL & Hk & Hv & ->).
  destruct (keyed_layout_fields args L key) as (Hp' & Hb & Hn & Hc' & Hkey).
  pose proof (per_question_counts_length _ _ Hq) as Hlq.
  pose proof (parse_answer_key_length _ _ _ Ht) as Hlt.
  pose proof (resolve_key_length _ _ _ Hk) as Hlk.
  pose proof HL as Hinv.
  apply compute_layout_inv in Hinv
    as (W & H & max_k & cols & rows & HP & Hmax & _ & _ & Hcounts & HN & Hpaper & _).
  simpl in Hmax, HP, Hcounts, HN, Hpaper.
  rewrite Hcounts in Hc'. rewrite HN in Hn. rewrite Hpaper in Hp'.
  assert (1 <= arg_num_questions args) as HN1.
  { destruct per_q as [|k per_q]; [done|]. simpl in Hlq. lia. }
  assert (Forall (Z.le 1) per_q) as Hpos.
  { apply Forall_lookup. intros i k Hi.
    destruct (lookup_lt_is_Some_2 key i) as [ans Hans].
    { apply lookup_lt_Some in Hi. lia. }
    destruct (validate_key_inv per_q key ltac:(lia) Hv i ans Hans)
      as (k' & Hk' & Hr).
    assert (k' = k) as -> by congruence. lia. }
  rewrite Hn, Hc', Hp'.
  split; [done|]. split; [done|]. split; [done|]. split; [|split].
  - pose proof (compute_layout_wf (layout_args_of args per_q) L) as Hwf.
    simpl in Hwf. specialize (Hwf HN1 ltac:(lia) Hpos Hc Hbs Hrg HL).
    unfold layout_wf in *. rewrite Hb, Hn, Hc'.
    by rewrite Hcounts, HN in Hwf.
  - intros qn Hqn. rewrite Hn in Hqn. rewrite Hkey, Hc'.
    destruct (lookup_lt_is_Some_2 key (Z.to_nat (qn - 1))) as [ans Hans]; [lia|].
    destruct (validate_key_inv per_q key ltac:(lia) Hv _ ans Hans)
      as (k & Hk' & Hr).
    exists ans. split.
    + replace (qn - 1) with (Z.of_nat (Z.to_nat (qn - 1))) by lia.
      by apply py_nth_lookup.
    + unfold count_at. by rewrite Hk'.
  - by exists W, H.
Qed.

Lemma prepare_renders (ev : env) (args : cli_args) (l : Layout)
    (sid : option string) (fill : bool) :
  prepare args = Ok l ->
  1 <= arg_columns args ->
  (0 < arg_box_size_mm args)%Q -> (0 <= arg_row_gap_mm args)%Q ->
  exists ops, render_sheet (env_today ev) l sid fill (hdr ev args) = Ok ops.
Proof.
  intros Hp Hc Hbs Hrg.
  destruct (prepare_layout args l Hp Hc Hbs Hrg)
    as (_ & _ & _ & Hwf & Hkey & W & H & HP).
  destruct (render_sheet_questions (env_today ev) l sid fill (hdr ev args)
              W H HP Hwf Hkey) as (opss & Hops & _).
  eauto.
Qed.

Lemma run_bind_Ok {A B} (m : io A) (k : A -> io B) (x : A)
    (tr tr' : list event) :
  run m tr = (tr', Ok x) -> run (m ≫= k) tr = run (k x) tr'.
Proof. intros Hm. unfold mbind, io_bind. simpl. by rewrite Hm. Qed.

Lemma run_bind_Raise {A B} (m : io A) (k : A -> io B) (e : exn)
    (tr tr' : list event) :
  run m tr = (tr', Raise e) -> run (m ≫= k) tr = (tr', Raise e).
Proof. intros Hm. unfold mbind, io_bind. simpl. by rewrite Hm. Qed.

Lemma run_ret {A B} (x : A) (k : A -> io B) (tr : list event) :
  run (mret x ≫= k) tr = run (k x) tr.
Proof. reflexivity. Qed.

Lemma run_do_render (ev : env) (args : cli_args) (path : string) (l : Layout)
    (sid : option string) (fill : bool) (ops : list op) (tr : list event) :
  render_sheet (env_today ev) l sid fill (hdr ev args) = Ok ops ->
  run (do_render ev args path l sid fill) tr
  = (tr ++ [call_render_sheet path l sid fill (hdr ev args);
            canvas_save path ops], Ok tt).
Proof.
  intros Hr. unfold do_render.
  rewrite run_emit, (run_lift_Ok _ ops) by done.
  unfold emit. simpl. by rewrite <- app_assoc.
Qed.

Lemma saved_paths_app (tr1 tr2 : list event) :
  saved_paths (tr1 ++ tr2) = saved_paths tr1 ++ saved_paths tr2.
Proof. apply omap_app. Qed.

Lemma saves_app (tr1 tr2 : list event) :
  saves (tr1 ++ tr2) = saves tr1 ++ saves tr2.
Proof. apply omap_app. Qed.

Lemma merges_app (tr1 tr2 : list event) :
  merges (tr1 ++ tr2) = merges tr1 ++ merges tr2.
Proof. apply omap_app. Qed.

(** The loop over the students, when every sheet renders: one sheet saved
    per student, in order, the paths collected in that order, no merge. *)
Lemma run_student_loop (ev : env) (args : cli_args) (l : Layout)
    (sids : list Z) (aps cps : list string) (tr : list event) :
  (forall sid, exists ops,
     render_sheet (env_today ev) l (Some sid) false (hdr ev args) = Ok ops) ->
  exists ext,
    run (student_loop ev args l sids aps cps) tr
    = (tr ++ ext,
       Ok (aps ++ (answer_tmp ev <$> sids),
           cps ++ (if do_cover args then cover_tmp ev <$> sids else []))) /\
    saved_paths ext = answer_tmp ev <$> sids /\
    merges ext = [] /\
    Forall2 (fun sid s =>
               s.1 = answer_tmp ev sid /\
               render_sheet (env_today ev) l (Some (fmt_03d sid)) false
                 (hdr ev args) = Ok s.2)
            sids (saves ext).
Proof.
  intros Hr. revert aps cps tr.
  induction sids as [|sid sids IH]; intros aps cps tr.
  - exists []. simpl. rewrite !app_nil_r.
    destruct (do_cover args); rewrite ?app_nil_r; repeat split; constructor.
  - destruct (Hr (fmt_03d sid)) as (ops & Hops).
    cbn [student_loop]. fold (answer_tmp ev sid). fold (cover_tmp ev sid).
    rewrite (run_bind_Ok _ _ tt _ _
               (run_do_render ev args (answer_tmp ev sid) l _ false ops tr Hops)).
    destruct (do_cover args) eqn:Hcov.
    + rewrite run_assoc, run_emit, run_ret.
      destruct (arg_per_student args).
      * rewrite run_assoc, run_emit. rewrite last_snoc, run_emit.
        edestruct (IH (aps ++ [answer_tmp ev sid]) (cps ++ [cover_tmp ev sid]))
          as (ext & Hrun & Hs & Hm & Hsv).
        rewrite Hrun. eexists. split; [|split; [|split]].
        -- rewrite <- !app_assoc, fmap_cons. reflexivity.
        -- rewrite !saved_paths_app, Hs. reflexivity.
        -- rewrite !merges_app, Hm. reflexivity.
        -- rewrite !saves_app. by constructor.
      * rewrite run_ret.
        edestruct (IH (aps ++ [answer_tmp ev sid]) (cps ++ [cover_tmp ev sid]))
          as (ext & Hrun & Hs & Hm & Hsv).
        rewrite Hrun. eexists. split; [|split; [|split]].
        -- rewrite <- !app_assoc, fmap_cons. reflexivity.
        -- rewrite !saved_paths_app, Hs. reflexivity.
        -- rewrite !merges_app, Hm. reflexivity.
        -- rewrite !saves_app. by constructor.
    + rewrite run_ret.
      destruct (arg_per_student args).
      * rewrite run_assoc, run_emit, run_ret.
        edestruct (IH (aps ++ [answer_tmp ev sid]) cps)
          as (ext & Hrun & Hs & Hm & Hsv).
        rewrite Hrun. eexists. split; [|split; [|split]].
        -- rewrite <- !app_assoc. reflexivity.
        -- rewrite !saved_paths_app, Hs. reflexivity.
        -- rewrite !merges_app, Hm. reflexivity.
        -- rewrite !saves_app. by constructor.
      * rewrite run_ret.
        edestruct (IH (aps ++ [answer_tmp ev sid]) cps)
          as (ext & Hrun & Hs & Hm & Hsv).
        rewrite Hrun. eexists. split; [|split; [|split]].
        -- rewrite <- !app_assoc. reflexivity.
        -- rewrite !saved_paths_app, Hs. reflexivity.
        -- rewrite !merges_app, Hm. reflexivity.
        -- rewrite !saves_app. by constructor.
Qed.

Ltac exists_run ops ext Hops Hsv Hsaved Hmerges Htr0 :=
  eexists; exists ops, (saves ext);
  split; [reflexivity|]; split; [|split; [exact Hops|split; [|exact Hsv]]];
  rewrite ?saved_paths_app, ?merges_app, ?saves_app, ?Hsaved, ?Hmerges,
    ?last_snoc, Htr0;
  cbn [saved_paths merges saves omap list_omap app fmap list_fmap];
  rewrite ?app_nil_r; done.

(** A run past validation, when the cover file is there if one is given. *)
Lemma run_main (ev : env) (args : cli_args) (l : Layout) :
  prepare args = Ok l ->
  1 <= arg_columns args ->
  (0 < arg_box_size_mm args)%Q -> (0 <= arg_row_gap_mm args)%Q ->
  (arg_cover_tex args <> None -> env_cover_tex_exists ev = true) ->
  let sids := seqZ (arg_student_id_start args) (arg_student_id_count args) in
  exists tr ops sv,
    run (main ev args) [] = (tr, Ok tt) /\
    (saved_paths tr
     = path_join (arg_outdir args) "answer_sheet_solution.pdf"
       :: (answer_tmp ev <$> sids) /\
     merges tr
     = (if bool_decide (1 <= arg_student_id_count args) then
          (path_join (arg_outdir args) "answer_sheets_all.pdf",
           answer_tmp ev <$> sids)
          :: (if do_cover args
              then [(path_join (arg_outdir args) "cover_sheets_all.pdf",
                     cover_tmp ev <$> sids)]
              else [])
        else []) /\
     last tr = Some (print "Done.")) /\
    render_sheet (env_today ev) l None true (hdr ev args) = Ok ops /\
    saves tr
    = (path_join (arg_outdir args) "answer_sheet_solution.pdf", ops) :: sv /\
    Forall2 (fun sid s =>
               s.1 = answer_tmp ev sid /\
               render_sheet (env_today ev) l (Some (fmt_03d sid)) false
                 (hdr ev args) = Ok s.2)
            sids sv.
Proof.
  intros Hp Hc Hbs Hrg Hcover sids.
  assert (sids = seqZ (arg_student_id_start args) (arg_student_id_count args))
    as Hdef by done.
  clearbody sids.
  destruct (prepare_renders ev args l None true Hp Hc Hbs Hrg) as (ops & Hops).
  assert (forall sid, exists ops',
            render_sheet (env_today ev) l (Some sid) false (hdr ev args)
            = Ok ops') as Hrender
    by (intros sid; by apply (prepare_renders ev args)).
  unfold main. rewrite <- Hdef. rewrite !run_emit. rewrite (run_lift_Ok _ l) by done.
  rewrite run_emit.
  rewrite (run_bind_Ok _ _ tt _ _ (run_do_render ev args _ l None true ops _ Hops)).
  assert (forall (k : unit -> io unit) tr0,
            run ((match arg_cover_tex args with
                  | Some _ => if env_cover_tex_exists ev then mret tt
                              else lift (Raise FileNotFoundError)
                  | None => mret tt
                  end) ≫= k) tr0 = run (k tt) tr0) as Hcheck.
  { intros k tr0. destruct (arg_cover_tex args); [|done].
    by rewrite Hcover. }
  rewrite Hcheck, run_emit.
  match goal with
  | |- context [run (student_loop _ _ _ _ _ _ ≫= _) ?t] =>
      remember t as tr0 eqn:Htr0
  end.
  destruct (run_student_loop ev args l sids [] [] tr0 Hrender)
    as (ext & Hloop & Hsaved & Hmerges & Hsv).
  rewrite (run_bind_Ok _ _ _ _ _ Hloop). cbv beta iota. cbn [app].
  destruct (bool_decide_reflect (1 <= arg_student_id_count args)) as [Hn|Hn].
  - assert (exists s0 rest, sids = s0 :: rest) as (s0 & rest & Hsids).
    { rewrite Hdef, seqZ_cons by lia. eauto. }
    clear Hdef. rewrite Hsids in *. cbn [fmap list_fmap]. rewrite run_emit.
    destruct (do_cover args) eqn:Hcov.
    + cbn [fmap list_fmap]. rewrite run_emit.
      destruct (arg_keep_temp args); rewrite run_emit;
        exists_run ops ext Hops Hsv Hsaved Hmerges Htr0.
    + rewrite run_ret.
      destruct (arg_keep_temp args); rewrite run_emit;
        exists_run ops ext Hops Hsv Hsaved Hmerges Htr0.
  - assert (sids = []) as Hsids.
    { rewrite Hdef. apply seqZ_nil. lia. }
    clear Hdef. rewrite Hsids in *. cbn [fmap list_fmap]. rewrite run_ret.
    destruct (do_cover args) eqn:Hcov; cbn [fmap list_fmap]; rewrite run_ret;
      destruct (arg_keep_temp args); rewrite run_emit;
        exists_run ops ext Hops Hsv Hsaved Hmerges Htr0.
Qed.

(** Another answer key changes the key of the validated layout only. *)
Lemma prepare_with_answer_key (args : cli_args) (key : string)
    (l1 l2 : Layout) :
  prepare args = Ok l1 -> prepare (with_answer_key args key) = Ok l2 ->
  l2 = set_answer_key l1 (answer_key l2).
Proof.
  intros H1 H2.
  apply prepare_inv in H1 as (pq1 & t1 & L1 & k1 & Hq1 & _ & HL1 & _ & _ & ->).
  apply prepare_inv in H2 as (pq2 & t2 & L2 & k2 & Hq2 & _ & HL2 & _ & _ & ->).
  change (per_question_counts (with_answer_key args key))
    with (per_question_counts args) in Hq2.
  assert (pq2 = pq1) as -> by congruence.
  change (layout_args_of (with_answer_key args key) pq1)
    with (layout_args_of args pq1) in HL2.
  assert (L2 = L1) as -> by congruence.
  unfold keyed_layout, apply_prefix. simpl.
  by destruct (nonempty _).
Qed.

Lemma Forall2_functional {A B} (P : A -> B -> Prop) (l : list A)
    (k1 k2 : list B) :
  (forall x y1 y2, P x y1 -> P x y2 -> y1 = y2) ->
  Forall2 P l k1 -> Forall2 P l k2 -> k1 = k2.
Proof.
  intros Hfun H1. revert k2.
  induction H1 as [|x y1 l k1 Hy1 _ IH]; intros k2 H2.
  - by apply Forall2_nil_inv_l in H2.
  - apply Forall2_cons_inv_l in H2 as (y2 & k2' & Hy2 & H2 & ->).
    f_equal; [by eapply Hfun | by apply IH].
Qed.

(** ** Tokens of the answer key *)

Lemma py_index_inv (l : list string) (x : string) (i : Z) :
  py_index l x = Ok i -> 0 <= i /\ l !! Z.to_nat i = Some x.
Proof.
  revert i. induction l as [|y l IH]; intros i; simpl; [discriminate|].
  destruct (String.eqb_spec y x) as [->|Hne].
  - intros [= <-]. by split.
  - destruct (py_index l x) as [j|e] eqn:Hj; [|discriminate].
    simpl. intros [= <-]. destruct (IH j eq_refl) as [Hj0 Hl].
    split; [lia|]. replace (Z.to_nat (j + 1)) with (S (Z.to_nat j)) by lia.
    done.
Qed.

Lemma option_labels_inv (k : Z) (labels : list string) :
  0 <= k -> option_labels k = Ok labels ->
  k <= 702 /\ labels = label_of <$> seqZ 0 k.
Proof.
  intros Hk Hl. destruct (Z.le_gt_cases k 702) as [Hle|Hgt].
  - rewrite option_labels_spec in Hl by lia. split; [done | congruence].
  - exfalso. revert Hl. unfold option_labels.
    destruct (Z.leb_spec k 26); [lia|].
    by rewrite (labels_loop_overflow 676 (Z.to_nat k) k letters 0)
      by (rewrite ?letters_length; lia).
Qed.
(** ** Claims on the labelling scheme *)

(** C10: for every [n] from 1 to 702, [option_labels n] returns exactly [n]
    labels, A..Z followed by AA, AB, ..., pairwise distinct, so that the
    position of a label in the list is the only index that carries it. *)
Theorem option_labels_distinct (n : Z) :
  1 <= n <= 702 ->
  exists ls,
    option_labels n = Ok ls /\
    Z.of_nat (length ls) = n /\
    NoDup ls /\
    (forall i, 0 <= i < n -> py_nth ls i = Ok (label_of i)) /\
    (forall i lab, 0 <= i < n -> py_nth ls i = Ok lab -> py_index ls lab = Ok i).
Proof.
  intros Hn. exists (label_of <$> seqZ 0 n).
  split; [apply option_labels_spec; lia|].
  split; [rewrite length_fmap, length_seqZ; lia|].
  split; [apply labels_NoDup; lia|].
  split; [intros i Hi; by apply py_nth_fmap_seqZ|].
  intros i lab Hi Hlab. replace i with (Z.of_nat (Z.to_nat i)) by lia.
  apply py_index_lookup; [apply labels_NoDup; lia|].
  apply py_nth_nonneg; [lia | done].
Qed.

Lemma option_labels_distinct_witness :
  exists ls,
    option_labels 30 = Ok ls /\
    Z.of_nat (length ls) = 30 /\
    NoDup ls /\
    (forall i, 0 <= i < 30 -> py_nth ls i = Ok (label_of i)) /\
    (forall i lab, 0 <= i < 30 -> py_nth ls i = Ok lab -> py_index ls lab = Ok i).
Proof. apply (option_labels_distinct 30). lia. Defined.

(** C3: for every option count [k] from 1 to 702 (so from 1 to 30, across
    the two-letter boundary at 26) and every index [i] below [k], the label
    [option_labels(k)[i]] decodes back to [i] against the same count, in
    upper case, in lower case and in any mix of cases; a token of digits
    decodes to the number it writes, so the numeral of [i] decodes to [i]. *)
Theorem answer_key_round_trip (per_q : list Z) (qi k i : Z) :
  1 <= k <= 702 -> 0 <= i < k -> py_nth per_q qi = Ok k ->
  exists labels lab,
    option_labels k = Ok labels /\
    py_nth labels i = Ok lab /\
    resolve_token per_q qi lab = Ok i /\
    resolve_token per_q qi (lower lab) = Ok i /\
    (forall tok, upper tok = lab -> resolve_token per_q qi tok = Ok i) /\
    (forall tok, isdigit tok = true ->
       resolve_token per_q qi tok = Ok (int_digits 0 tok)) /\
    resolve_token per_q qi (str_of_Z i) = Ok i.
Proof.
  intros Hk Hi Hq. exists (label_of <$> seqZ 0 k), (label_of i).
  assert (forall tok, upper tok = label_of i -> resolve_token per_q qi tok = Ok i)
    as Hdec.
  { intros tok Htok. unfold resolve_token.
    destruct (isdigit tok) eqn:Hd.
    - apply isdigit_upper in Hd as Hup. rewrite Hup in Htok. subst tok.
      rewrite label_of_not_digit in Hd by lia. discriminate.
    - rewrite Hq. simpl. rewrite option_labels_spec by lia. simpl.
      rewrite Htok. replace i with (Z.of_nat (Z.to_nat i)) at 2 by lia.
      apply py_index_lookup; [apply labels_NoDup; lia|].
      apply py_nth_nonneg; [lia | apply py_nth_fmap_seqZ; lia]. }
  split; [apply option_labels_spec; lia|].
  split; [apply py_nth_fmap_seqZ; lia|].
  split; [apply Hdec, label_of_upper; lia|].
  split; [apply Hdec, label_of_upper_lower; lia|].
  split; [exact Hdec|].
  split.
  - intros tok Hd. unfold resolve_token. rewrite Hd. by apply py_int_isdigit.
  - unfold resolve_token. rewrite pretty_nat_isdigit by lia.
    rewrite py_int_isdigit by (apply pretty_nat_isdigit; lia).
    by rewrite pretty_nat_digits_val by lia.
Qed.

Lemma answer_key_round_trip_witness :
  exists labels lab,
    option_labels 30 = Ok labels /\
    py_nth labels 27 = Ok lab /\
    resolve_token [2; 30] 1 lab = Ok 27 /\
    resolve_token [2; 30] 1 (lower lab) = Ok 27 /\
    (forall tok, upper tok = lab -> resolve_token [2; 30] 1 tok = Ok 27) /\
    (forall tok, isdigit tok = true ->
       resolve_token [2; 30] 1 tok = Ok (int_digits 0 tok)) /\
    resolve_token [2; 30] 1 (str_of_Z 27) = Ok 27.
Proof. apply (answer_key_round_trip [2; 30] 1 30 27); [lia | lia | reflexivity]. Defined.

(** ** Claims on the layout engine *)

(** C1, as stated, fails: with one question of two options and a requested
    column count of -1, [compute_layout] returns a layout without any box
    ([cols_used = -1], so [rows = ceil(1 / -1) = -1] and the row loop does
    not run). *)
Lemma box_completeness_fails_for_negative_columns :
  let a := mkArgs "A4" "Antworten" 1 [2] (-1) false 0 0 (35 # 10) in
  1 <= a_num_questions a /\
  Forall (Z.le 1) (a_per_q_counts a) /\
  exists L, compute_layout a = Ok L /\
            ~ box_complete (a_num_questions a) (a_per_q_counts a) (boxes L).
Proof.
  simpl. split; [lia|]. split; [repeat constructor; lia|].
  eexists. split; [vm_compute; reflexivity|].
  intros Hc. specialize (Hc 1 0). vm_compute in Hc. discriminate.
Qed.

(** C1, amended: for every input with [N >= 1] questions, exactly [N]
    option counts, all at least 1, and a requested column count of at least
    1, the layout [compute_layout] returns has exactly one box for every pair
    [(q, o)] with [1 <= q <= N] and [0 <= o < count[q]], no box for any other
    pair, and as many boxes as the option counts sum to. *)
Theorem box_completeness (a : layout_args) (L : Layout) :
  1 <= a_num_questions a ->
  a_num_questions a = Z.of_nat (length (a_per_q_counts a)) ->
  Forall (Z.le 1) (a_per_q_counts a) ->
  1 <= a_columns a ->
  compute_layout a = Ok L ->
  box_complete (a_num_questions a) (a_per_q_counts a) (boxes L) /\
  Z.of_nat (length (boxes L)) = sum_counts (a_per_q_counts a).
Proof.
  intros HN Hlen Hpos Hc HL. split.
  - apply compute_layout_complete; (done || lia).
  - destruct (compute_layout_boxes a L Hc HN ltac:(lia) HL)
      as (W & H & max_k & cols & Hcols & ->).
    by apply placed_total.
Qed.

Lemma box_completeness_witness :
  exists L,
    compute_layout (mkArgs "A4" "Antworten" 3 [2; 4; 3] 5 false 0 0 (35 # 10))
    = Ok L /\
    box_complete 3 [2; 4; 3] (boxes L) /\
    Z.of_nat (length (boxes L)) = 9.
Proof.
  eexists. split; [vm_compute; reflexivity|].
  apply (box_completeness
           (mkArgs "A4" "Antworten" 3 [2; 4; 3] 5 false 0 0 (35 # 10)));
    simpl; [lia | reflexivity | repeat constructor; lia | lia |].
  vm_compute. reflexivity.
Defined.









(** ** Claims on the sheet renderer *)

(** C8: on a layout that satisfies the layout invariants (box completeness,
    counts within the labelling scheme) and carries a valid answer key, the
    render with [fill_solution] on draws, besides the four corner markers,
    exactly one filled rectangle per question, in question order, and it is
    the rectangle of the box whose option index is that question's key
    entry; the render with [fill_solution] off draws no filled rectangle
    besides the markers. *)
Theorem solution_fidelity (today : string) (l : Layout) (sid : option string)
    (hd : header) (W H : Q) :
  PAPERS (paper l) = Ok (W, H) -> layout_wf l -> key_valid l ->
  (exists ops bs,
     render_sheet today l sid true hd = Ok ops /\
     Forall2 (fun qn b => b ∈ boxes l /\ q b = qn /\
                          py_nth (answer_key l) (qn - 1) = Ok (opt b))
             (seqZ 1 (num_questions l)) bs /\
     filled_rects ops = marker_rects W H l ++ (fill_rect <$> bs)) /\
  (exists ops,
     render_sheet today l sid false hd = Ok ops /\
     filled_rects ops = marker_rects W H l).
Proof.
  intros HP Hwf Hkey. split.
  - destruct (render_sheet_questions today l sid true hd W H HP Hwf Hkey)
      as (opss & Hops & Hall).
    destruct (filled_concat_one
                (fun qn b => b ∈ boxes l /\ q b = qn /\
                             py_nth (answer_key l) (qn - 1) = Ok (opt b))
                _ _ Hall) as (bs & Hbs & Hfilled).
    eexists _, bs. split; [exact Hops|]. split; [exact Hbs|].
    rewrite !filled_rects_app, header_filled, Hfilled.
    by rewrite app_nil_r.
  - destruct (render_sheet_questions today l sid false hd W H HP Hwf Hkey)
      as (opss & Hops & Hall).
    eexists. split; [exact Hops|].
    rewrite !filled_rects_app, header_filled, (filled_concat_none _ _ Hall).
    by rewrite app_nil_r.
Qed.

Lemma solution_fidelity_witness :
  let a := mkArgs "A4" "Antworten" 3 [2; 4; 3] 5 false 0 0 (35 # 10) in
  exists L0,
    compute_layout a = Ok L0 /\
    let l := set_answer_key L0 [0; 2; 1] in
    PAPERS (paper l) = Ok (210 * mm, 297 * mm)%Q /\
    layout_wf l /\ key_valid l /\
    (exists ops bs,
       render_sheet "4. November 2026" l None true (mkHeader "" "" "") = Ok ops /\
       Forall2 (fun qn b => b ∈ boxes l /\ q b = qn /\
                            py_nth (answer_key l) (qn - 1) = Ok (opt b))
               (seqZ 1 (num_questions l)) bs /\
       filled_rects ops
       = marker_rects (210 * mm) (297 * mm) l ++ (fill_rect <$> bs)) /\
    (exists ops,
       render_sheet "4. November 2026" l None false (mkHeader "" "" "") = Ok ops /\
       filled_rects ops = marker_rects (210 * mm) (297 * mm) l).
Proof.
  intros a.
  destruct (compute_layout a) as [L0|e] eqn:HL; [|vm_compute in HL; discriminate].
  exists L0. split; [done|]. intros l.
  pose proof (compute_layout_inv a L0 HL)
    as (W & H & max_k & cols & rows & HP & _ & _ & _ & Hcounts & HN & Hpaper & _).
  assert (PAPERS (paper l) = Ok (210 * mm, 297 * mm)%Q) as HPl
    by (simpl; by rewrite Hpaper).
  assert (layout_wf l) as Hwf.
  { apply (compute_layout_wf a L0); simpl;
      [lia | reflexivity | repeat constructor; lia | lia | reflexivity
      | discriminate | exact HL]. }
  assert (key_valid l) as Hkey.
  { intros qn Hq. simpl in *. rewrite HN in Hq. rewrite Hcounts. simpl in Hq.
    assert (qn = 1 \/ qn = 2 \/ qn = 3) as [->|[->| ->]] by lia;
      eexists; (split; [reflexivity | vm_compute; split; [discriminate | reflexivity]]). }
  split; [exact HPl|]. split; [exact Hwf|]. split; [exact Hkey|].
  exact (solution_fidelity "4. November 2026" l None (mkHeader "" "" "")
           (210 * mm) (297 * mm) HPl Hwf Hkey).
Defined.

(** C9, as stated, fails: with an empty exam date [render_sheet] prints the
    current date, so two calls with identical arguments on different days
    draw different sheets. *)
Lemma render_depends_on_today :
  let a := mkArgs "A4" "Antworten" 1 [2] 5 false 0 0 (35 # 10) in
  exists l,
    compute_layout a = Ok l /\
    render_sheet "04. November 2026" l None false (mkHeader "" "" "")
    <> render_sheet "05. November 2026" l None false (mkHeader "" "" "").
Proof.
  intros a. eexists. split; [vm_compute; reflexivity|].
  vm_compute. intros Heq. discriminate Heq.
Qed.

(** C9, amended: with a non-empty exam date the drawing [render_sheet]
    produces is a function of the layout, the student identifier, the
    reveal flag and the header alone, whatever the current date; and the
    only objects the call writes are the lists it creates itself: every list
    object that existed before, the layout's box list among them, is left as
    it was, while [boxes_by_q] reads the sorted groups the drawing uses. *)
Theorem render_sheet_pure (today1 today2 : string) (l : Layout)
    (sid : option string) (fill : bool) (hd : header)
    (h0 : gmap nat (list Box)) :
  nonempty (exam_date hd) = true ->
  render_sheet today1 l sid fill hd = render_sheet today2 l sid fill hd /\
  (forall loc, loc ∈ dom h0 ->
     (group_and_sort h0 (boxes l)).2 !! loc = h0 !! loc) /\
  (forall qn, read_group (group_and_sort h0 (boxes l)) qn
              = (sort_by_opt <$> group_by_q (boxes l)) !! qn).
Proof.
  intros Hdate. split; [|apply group_and_sort_spec].
  unfold render_sheet, header_ops. by rewrite Hdate.
Qed.

Lemma render_sheet_pure_witness :
  let hd := mkHeader "Logic" "" "04. November 2026" in
  let bs := [mkBox 1 1 0 0 1 1; mkBox 1 0 0 2 1 1] in
  let l := mkLayout "A4" "Antworten" 0 0 1 [2] 0 0 0 0 0 bs (0, 0)%Q [0] None in
  let h0 : gmap nat (list Box) := {[ 0%nat := bs ]} in
  nonempty (exam_date hd) = true /\
  render_sheet "04. November 2026" l None true hd
  = render_sheet "05. November 2026" l None true hd /\
  (forall loc, loc ∈ dom h0 ->
     (group_and_sort h0 (boxes l)).2 !! loc = h0 !! loc) /\
  (forall qn, read_group (group_and_sort h0 (boxes l)) qn
              = (sort_by_opt <$> group_by_q (boxes l)) !! qn).
Proof.
  intros hd bs l h0. split; [reflexivity|].
  apply (render_sheet_pure "04. November 2026" "05. November 2026" l None true
           hd h0).
  reflexivity.
Defined.

(** ** Claims on the collator *)

(** C4: once the answer key is resolved, an entry that is negative or not
    below its question's option count ends the run in [ValueError] before
    anything is written or rendered (the trace holds the two directory
    creations only, so no [render_sheet] call); when every entry is in
    range, the run writes the layout and goes on to call [render_sheet]
    for the solution sheet. *)
Theorem key_validation (ev : env) (args : cli_args) (per_q : list Z)
    (toks : list string) (l : Layout) (key : list Z) :
  per_question_counts args = Ok per_q ->
  parse_answer_key (arg_answer_key args) (arg_num_questions args) = Ok toks ->
  compute_layout (layout_args_of args per_q) = Ok l ->
  resolve_key per_q toks = Ok key ->
  ((exists i ans, key !! i = Some ans /\ ~ entry_in_range per_q i ans) ->
   run (main ev args) []
   = ([makedirs (arg_outdir args); makedirs "scans"], Raise ValueError)) /\
  ((forall i ans, key !! i = Some ans -> entry_in_range per_q i ans) ->
   exists tr r,
     run (main ev args) []
     = ([ makedirs (arg_outdir args); makedirs "scans";
          write_layout_json (path_join (arg_outdir args) "layout.json")
            (keyed_layout args l key);
          call_render_sheet
            (path_join (arg_outdir args) "answer_sheet_solution.pdf")
            (keyed_layout args l key) None true (hdr ev args) ] ++ tr, r)).
Proof.
  intros Hq Ht Hl Hk.
  assert (length key <= length per_q)%nat as Hlen.
  { rewrite (resolve_key_length _ _ _ Hk), (parse_answer_key_length _ _ _ Ht),
      (per_question_counts_length _ _ Hq). lia. }
  destruct (validate_key_spec per_q key Hlen) as [Hok Hbad].
  assert (forall r, validate_key per_q key = r ->
            prepare args = (_ ← r; Ok (keyed_layout args l key))) as Hprep.
  { intros r <-. unfold prepare.
    rewrite (bind_eq _ _ _ Hq), (bind_eq _ _ _ Ht).
    fold (layout_args_of args per_q).
    rewrite (bind_eq _ _ _ Hl), (bind_eq _ _ _ Hk).
    cbv zeta. fold (keyed_layout args l key).
    by rewrite answer_key_keyed. }
  split.
  - intros Hout. apply main_not_prepared.
    by rewrite (Hprep _ (Hbad Hout)).
  - intros Hin. apply main_prepared.
    by rewrite (Hprep _ (Hok Hin)).
Qed.

Lemma key_validation_witness :
  let args := mkCli "A4" "Antworten" "" "" "" 3 "2" (Some "2,4,3") 5 false
                0 0 (35 # 10) 1 2 "A,c,1" "out" None None "Exam paper"
                false false false in
  let bad := mkCli "A4" "Antworten" "" "" "" 3 "2" (Some "2,4,3") 5 false
                0 0 (35 # 10) 1 2 "A,c,3" "out" None None "Exam paper"
                false false false in
  let ev := mkEnv "4. November 2026" "out/sheets_x" false in
  resolve_key [2; 4; 3] ["A"; "c"; "1"] = Ok [0; 2; 1] /\
  resolve_key [2; 4; 3] ["A"; "c"; "3"] = Ok [0; 2; 3] /\
  (exists l tr r,
     run (main ev args) []
     = ([ makedirs "out"; makedirs "scans";
          write_layout_json "out/layout.json" l;
          call_render_sheet "out/answer_sheet_solution.pdf" l None true
            (hdr ev args) ] ++ tr, r)) /\
  run (main ev bad) [] = ([makedirs "out"; makedirs "scans"], Raise ValueError).
Proof.
  intros args bad ev.
  destruct (compute_layout (layout_args_of args [2; 4; 3])) as [l|e] eqn:Hl;
    [|vm_compute in Hl; discriminate].
  split; [reflexivity|]. split; [reflexivity|]. split.
  - destruct (proj2 (key_validation ev args [2; 4; 3] ["A"; "c"; "1"] l [0; 2; 1]
                       eq_refl eq_refl Hl eq_refl)) as (tr & r & Hrun).
    + intros [|[|[|i]]] ans [= <-]; eexists; (split; [reflexivity | lia]).
    + eauto.
  - apply (proj1 (key_validation ev bad [2; 4; 3] ["A"; "c"; "3"] l [0; 2; 3]
                    eq_refl eq_refl Hl eq_refl)).
    exists 2%nat, 3. split; [reflexivity|].
    intros (k & [= <-] & ?). lia.
Defined.

(** C5, as stated, fails: two questions with the one-token answer key "A"
    are accepted; the token is reused for the second question and the run
    ends normally, having written the layout, the solution sheet and the
    student sheet. *)
Lemma key_length_mismatch_accepted :
  let args := mkCli "A4" "Antworten" "" "" "" 2 "2" None 5 false
                0 0 (35 # 10) 1 1 "A" "out" None None "Exam paper"
                false false false in
  let ev := mkEnv "4. November 2026" "out/sheets_x" false in
  Z.of_nat (length (parse_csv (arg_answer_key args))) <> arg_num_questions args /\
  parse_answer_key (arg_answer_key args) (arg_num_questions args)
  = Ok ["A"; "A"] /\
  exists tr, run (main ev args) [] = (tr, Ok tt) /\
             length (filter (fun e => is_output e = true) tr) = 4%nat.
Proof.
  intros args ev. split; [vm_compute; discriminate|].
  split; [vm_compute; reflexivity|].
  eexists. split; [vm_compute; reflexivity|]. vm_compute. reflexivity.
Qed.

(** C5, amended: an answer key of [k >= 1] tokens is accepted whatever the
    number of questions [N]: the parsed key has [N] entries and entry [i]
    is token [i mod k], so a shorter key repeats cyclically and a longer
    one is cut after [N] tokens. *)
Theorem answer_key_cycles (spec : string) (N : Z) (raw : list string) :
  parse_csv spec = raw -> raw <> [] ->
  exists toks,
    parse_answer_key spec N = Ok toks /\
    length toks = Z.to_nat N /\
    forall i, 0 <= i < N ->
      toks !! Z.to_nat i = raw !! Z.to_nat (i mod Z.of_nat (length raw)).
Proof.
  intros Hraw Hne. unfold parse_answer_key. rewrite Hraw.
  destruct (mapM_ok (fun i => py_mod_nth raw i)
              (fun i x => raw !! Z.to_nat (i mod Z.of_nat (length raw)) = Some x)
              (range N)) as (toks & Htoks & Hall).
  { intros i Hi. apply elem_of_seqZ in Hi.
    apply py_mod_nth_lookup; [done | lia]. }
  exists toks. split; [done|].
  split; [by rewrite (mapM_length _ _ _ Htoks), length_range|].
  intros i Hi.
  assert (range N !! Z.to_nat i = Some i) as Hlook.
  { unfold range. rewrite lookup_seqZ_lt by lia. f_equal. lia. }
  destruct (Forall2_lookup_l _ _ _ _ _ Hall Hlook) as (x & Hx & Hr).
  by rewrite Hx, Hr.
Qed.

Lemma answer_key_cycles_witness :
  parse_csv "A, b" = ["A"; "b"] /\
  exists toks,
    parse_answer_key "A, b" 5 = Ok toks /\
    length toks = 5%nat /\
    forall i, 0 <= i < 5 ->
      toks !! Z.to_nat i = ["A"; "b"] !! Z.to_nat (i mod 2).
Proof.
  split; [reflexivity|].
  apply (answer_key_cycles "A, b" 5 ["A"; "b"]); [reflexivity | discriminate].
Defined.

(** * Further properties of the code *)

(** ** [_latex_escape] *)

(** X1: escaping works character by character, so the escape of a
    concatenation is the concatenation of the escapes. *)
Theorem latex_escape_app (s t : string) :
  _latex_escape (Some (s ++ t)%string)
  = (_latex_escape (Some s) ++ _latex_escape (Some t))%string.
Proof.
  induction s as [|c s IH]; [done|].
  rewrite string_app_cons, !latex_escape_cons, IH.
  by rewrite string_app_assoc.
Qed.

(** X2: escaping loses nothing: two texts with the same escape are the
    same text. *)
Theorem latex_escape_inj (s t : string) :
  _latex_escape (Some s) = _latex_escape (Some t) <-> s = t.
Proof.
  split; [|by intros ->].
  revert t. induction s as [|c s IH]; intros [|d t] Heq; [done | | |].
  - rewrite latex_escape_cons in Heq.
    pose proof (latex_escape_length (String d t)) as [Hlen _].
    rewrite latex_escape_cons, <- Heq in Hlen. simpl in Hlen. lia.
  - rewrite latex_escape_cons in Heq.
    pose proof (latex_escape_length (String c s)) as [Hlen _].
    rewrite latex_escape_cons, Heq in Hlen. simpl in Hlen. lia.
  - rewrite !latex_escape_cons in Heq.
    apply repl_get_prefix_free in Heq as [-> Heq]. by rewrite (IH t Heq).
Qed.

(** X3: a text is left as it is exactly when it holds none of the ten
    characters of the table; otherwise the escape is longer. *)
Theorem latex_escape_plain (s : string) :
  _latex_escape (Some s) = s
  <-> str_forall (fun c => negb (is_special c)) s = true.
Proof.
  split.
  - intros Heq. destruct (str_forall _ s) eqn:Hs; [done|].
    pose proof (proj2 (latex_escape_length s) Hs) as Hlt.
    rewrite Heq in Hlt. lia.
  - induction s as [|c s IH]; [done|]. intros Hs. simpl in Hs.
    apply andb_true_iff in Hs as [Hc Hs]. apply negb_true_iff in Hc.
    by rewrite latex_escape_cons, (repl_get_plain c Hc), (IH Hs).
Qed.

(** ** [parse_csv] *)

(** X4: every token [parse_csv] returns is non-empty, carries no white
    space at either end and holds no comma. *)
Theorem parse_csv_clean (s : string) :
  Forall clean_token (parse_csv s).
Proof.
  unfold parse_csv. apply Forall_forall. intros tok Htok.
  apply list_elem_of_fmap in Htok as (x & -> & Hx).
  apply list_elem_of_filter in Hx as [Hne Hx].
  pose proof (split_comma_fields s) as Hall. rewrite Forall_forall in Hall.
  split; [done|]. split; [apply strip_idem|].
  unfold strip, no_comma. apply str_forall_rstrip, str_forall_lstrip.
  by apply Hall.
Qed.

(** X5: round trip: a list of clean tokens, joined by commas, parses back
    to the same list. *)
Theorem parse_csv_join (toks : list string) :
  Forall clean_token toks ->
  parse_csv (String.concat "," toks) = toks.
Proof.
  intros Hall. destruct toks as [|x toks]; [done|].
  unfold parse_csv. rewrite split_comma_join; [|done|].
  - induction Hall as [|tok l (Hne & Hstrip & _) _ IH]; [done|].
    rewrite filter_cons_True by (by rewrite Hstrip).
    rewrite fmap_cons, Hstrip. f_equal. apply IH.
  - eapply Forall_impl; [exact Hall|]. by intros tok (_ & _ & Hc).
Qed.

Lemma parse_csv_join_witness :
  Forall clean_token ["A"; "c"; "12"] /\
  parse_csv (String.concat "," ["A"; "c"; "12"]) = ["A"; "c"; "12"].
Proof.
  assert (Forall clean_token ["A"; "c"; "12"]) as Hall
    by (repeat constructor).
  split; [exact Hall|]. exact (parse_csv_join ["A"; "c"; "12"] Hall).
Defined.

(** ** [option_labels] outside 1..702 *)

(** X6: past 702 options the two-letter scheme is exhausted:
    [option_labels] raises [IndexError] (at [letters[26]]) for every
    larger count. *)
Theorem option_labels_exhausted (n : Z) :
  702 < n -> option_labels n = Raise IndexError.
Proof.
  intros Hn. unfold option_labels. destruct (Z.leb_spec n 26); [lia|].
  by rewrite (labels_loop_overflow 676 (Z.to_nat n) n letters 0)
    by (rewrite ?letters_length; lia).
Qed.

Lemma option_labels_exhausted_witness :
  702 < 1000 /\ option_labels 1000 = Raise IndexError.
Proof. split; [lia | apply option_labels_exhausted; lia]. Defined.

(** X7: a count that is not positive is not rejected: zero gives no label,
    and a negative count [n], taken as the slice [letters[:n]], gives the
    first [26 + n] letters (none from -26 downwards). *)
Theorem option_labels_nonpositive (n : Z) :
  n <= 0 ->
  option_labels n
  = Ok (label_of <$> seqZ 0 (if n =? 0 then 0 else 26 + n)).
Proof.
  intros Hn. unfold option_labels. destruct (Z.leb_spec n 26); [|lia].
  f_equal. unfold py_take. rewrite letters_label_of.
  destruct (Z.eqb_spec n 0) as [->|Hne]; [done|].
  destruct (Z.ltb_spec n 0); [|lia].
  rewrite length_fmap, length_seqZ, <- fmap_take. f_equal.
  destruct (Z.le_gt_cases (26 + n) 0).
  - rewrite (seqZ_nil 0 (26 + n)) by lia.
    replace (Z.to_nat (Z.of_nat (Z.to_nat 26) + n)) with 0%nat by lia. done.
  - replace 26 with ((26 + n) + (- n)) at 2 by lia.
    rewrite seqZ_app by lia.
    rewrite take_app_length'; [done|]. rewrite length_seqZ. lia.
Qed.

Lemma option_labels_nonpositive_witness :
  -1 <= 0 /\
  option_labels (-1)
  = Ok (label_of <$> seqZ 0 25) /\
  length (label_of <$> seqZ 0 25) = 25%nat.
Proof.
  split; [lia|]. split; [apply (option_labels_nonpositive (-1)); lia | reflexivity].
Defined.

(** ** Student identifiers *)

(** X8: the identifier [f"{n:03d}"] of a student number is at least three
    characters long and reads back, as an integer, to the number itself; so
    the identifiers of a run, one for each number of
    [range(start, start + count)], are pairwise distinct. *)
Theorem student_ids_distinct (start count : Z) :
  NoDup (fmt_03d <$> seqZ start count) /\
  forall n, py_int (fmt_03d n) = Ok n /\ (3 <= String.length (fmt_03d n))%nat.
Proof.
  split; [|intros n; split; [apply fmt_03d_int | apply fmt_03d_length]].
  apply NoDup_fmap_2_strong; [|apply NoDup_seqZ].
  intros a b _ _ Heq.
  pose proof (fmt_03d_int a) as Ha. rewrite Heq, fmt_03d_int in Ha. congruence.
Qed.

(** ** Geometry of the layout *)



(** X10: the rows of the grid fit the page exactly when the questions fit
    into the requested columns times the rows that fit.  With or without
    [force_columns], for at least one question and at least one requested
    column, a returned grid has [rows <= rows_fit] if and only if
    [num_questions <= columns * rows_fit]; beyond that the grid is
    returned all the same, with more rows than fit. *)
Theorem grid_rows_fit (a : layout_args) (H : Q) (max_k rows_fit cols rows : Z) :
  floor_div (available_h H) (q_block_h a max_k) = Ok rows_fit ->
  grid a H max_k = Ok (cols, rows) ->
  1 <= a_num_questions a -> 1 <= a_columns a ->
  rows <= rows_fit <-> a_num_questions a <= a_columns a * rows_fit.
Proof.
  intros Hfit Hg HN Hc.
  apply grid_inv in Hg as (rf & Hfit' & Hrf & Hrows & Hcols).
  assert (rf = rows_fit) as -> by congruence.
  destruct (a_force_columns a).
  - subst cols. apply ceil_div_pos in Hrows; [|lia]. nia.
  - destruct Hcols as (c & Hc' & ->).
    apply ceil_div_pos in Hc'; [|lia].
    assert (1 <= c) by nia.
    apply ceil_div_pos in Hrows; [|lia].
    destruct (Z.min_spec (a_columns a) c) as [[Hlt Heq]|[Hle Heq]];
      rewrite Heq in Hrows; nia.
Qed.

Lemma grid_rows_fit_witness :
  let a := mkArgs "A4" "Antworten" 66 (replicate 66 2) 5 false 0 0 (35 # 10) in
  floor_div (available_h (297 * mm)) (q_block_h a 2) = Ok 13 /\
  grid a (297 * mm) 2 = Ok (5, 14) /\
  (14 <= 13 <-> 66 <= 5 * 13).
Proof.
  simpl. split; [reflexivity|]. split; [reflexivity|].
  apply (grid_rows_fit
           (mkArgs "A4" "Antworten" 66 (replicate 66 2) 5 false 0 0 (35 # 10))
           (297 * mm) 2 13 5 14).
  - reflexivity.
  - reflexivity.
  - simpl. lia.
  - simpl. lia.
Defined.



(** ** Runs of the collator *)

(** X12: a layout that passes the validation of [main] cannot make
    [render_sheet] fail.  When the preparation of lines 471-508 succeeds,
    for a requested column count of at least 1, a positive box size and a
    non-negative row gap, there is at least one question, every question
    has at least one option, and [render_sheet] returns for every student
    identifier, with and without [fill_solution]. *)
Theorem validated_layout_renders (ev : env) (args : cli_args) (l : Layout)
    (sid : option string) (fill : bool) :
  prepare args = Ok l ->
  1 <= arg_columns args ->
  (0 < arg_box_size_mm args)%Q -> (0 <= arg_row_gap_mm args)%Q ->
  1 <= num_questions l /\
  Forall (Z.le 1) (per_question_option_counts l) /\
  exists ops, render_sheet (env_today ev) l sid fill (hdr ev args) = Ok ops.
Proof.
  intros Hp Hc Hbs Hrg.
  destruct (prepare_layout args l Hp Hc Hbs Hrg) as (HN & _ & Hpos & _).
  split; [done|]. split; [done|]. by apply (prepare_renders ev args).
Qed.

Lemma validated_layout_renders_witness :
  let args := mkCli "A4" "Antworten" "" "" "" 3 "2" (Some "2,4,3") 5 false
                0 0 (35 # 10) 1 2 "A,c,2" "out" None None "Exam paper"
                false false false in
  let ev := mkEnv "04. November 2026" "out/sheets_tmp" false in
  exists l,
    prepare args = Ok l /\
    1 <= num_questions l /\
    Forall (Z.le 1) (per_question_option_counts l) /\
    exists ops,
      render_sheet (env_today ev) l (Some "001") false (hdr ev args) = Ok ops.
Proof.
  simpl. eexists. split; [vm_compute; reflexivity|].
  apply (validated_layout_renders
           (mkEnv "04. November 2026" "out/sheets_tmp" false)
           (mkCli "A4" "Antworten" "" "" "" 3 "2" (Some "2,4,3") 5 false
              0 0 (35 # 10) 1 2 "A,c,2" "out" None None "Exam paper"
              false false false)
           _ (Some "001") false).
  - vm_compute. reflexivity.
  - simpl. lia.
  - reflexivity.
  - simpl. discriminate.
Defined.

(** X13: a run that passes validation completes.  With the file system,
    the LaTeX toolchain and the PDF merger taken to succeed, a cover file
    that exists when one is given, a requested column count of at least 1,
    a positive box size and a non-negative row gap, [main] returns
    normally; it saves the solution sheet and then one sheet for each
    number of [range(start, start + count)], in that order; if there is a
    student it merges exactly these sheets, in that order, into
    [answer_sheets_all.pdf], and with covers enabled the cover sheets of
    the same students, in the same order, into [cover_sheets_all.pdf];
    and it ends by printing [Done.]. *)
Theorem main_completes (ev : env) (args : cli_args) (l : Layout) :
  prepare args = Ok l ->
  1 <= arg_columns args ->
  (0 < arg_box_size_mm args)%Q -> (0 <= arg_row_gap_mm args)%Q ->
  (arg_cover_tex args <> None -> env_cover_tex_exists ev = true) ->
  let sids := seqZ (arg_student_id_start args) (arg_student_id_count args) in
  exists tr,
    run (main ev args) [] = (tr, Ok tt) /\
    saved_paths tr
    = path_join (arg_outdir args) "answer_sheet_solution.pdf"
      :: (answer_tmp ev <$> sids) /\
    merges tr
    = (if bool_decide (1 <= arg_student_id_count args) then
         (path_join (arg_outdir args) "answer_sheets_all.pdf",
          answer_tmp ev <$> sids)
         :: (if do_cover args
             then [(path_join (arg_outdir args) "cover_sheets_all.pdf",
                    cover_tmp ev <$> sids)]
             else [])
       else []) /\
    last tr = Some (print "Done.").
Proof.
  intros Hp Hc Hbs Hrg Hcover sids.
  destruct (run_main ev args l Hp Hc Hbs Hrg Hcover)
    as (tr & _ & _ & Hrun & Hall & _).
  exists tr. by split.
Qed.

Lemma main_completes_witness :
  let args := mkCli "A4" "Antworten" "" "" "" 3 "2" (Some "2,4,3") 5 false
                0 0 (35 # 10) 7 2 "A,c,1" "out" None (Some "cover.tex")
                "Exam paper" false false false in
  let ev := mkEnv "4. November 2026" "out/sheets_x" true in
  exists tr,
    run (main ev args) [] = (tr, Ok tt) /\
    saved_paths tr
    = [ "out/answer_sheet_solution.pdf";
        "out/sheets_x/answer_sheet_007.pdf";
        "out/sheets_x/answer_sheet_008.pdf" ] /\
    merges tr
    = [ ("out/answer_sheets_all.pdf",
         [ "out/sheets_x/answer_sheet_007.pdf";
           "out/sheets_x/answer_sheet_008.pdf" ]);
        ("out/cover_sheets_all.pdf",
         [ "out/sheets_x/cover_sheet_007.pdf";
           "out/sheets_x/cover_sheet_008.pdf" ]) ] /\
    last tr = Some (print "Done.").
Proof.
  intros args ev.
  destruct (prepare args) as [l|e] eqn:Hl; [|vm_compute in Hl; discriminate].
  apply (main_completes ev args l Hl).
  - simpl. lia.
  - reflexivity.
  - simpl. discriminate.
  - intros _. reflexivity.
Defined.

(** X14: a cover file that does not exist ends the run late.  When
    [--cover-tex] names a file that does not exist, a run that passes
    validation (requested column count of at least 1, positive box size,
    non-negative row gap) raises [FileNotFoundError] only after it has
    written [layout.json] and saved the solution sheet, whether or not
    covers are disabled with [--no-cover]; no student sheet is rendered
    and nothing is merged. *)
Theorem main_missing_cover (ev : env) (args : cli_args) (l : Layout)
    (tex : string) :
  prepare args = Ok l ->
  1 <= arg_columns args ->
  (0 < arg_box_size_mm args)%Q -> (0 <= arg_row_gap_mm args)%Q ->
  arg_cover_tex args = Some tex ->
  env_cover_tex_exists ev = false ->
  exists ops,
    render_sheet (env_today ev) l None true (hdr ev args) = Ok ops /\
    run (main ev args) []
    = ([ makedirs (arg_outdir args); makedirs "scans";
         write_layout_json (path_join (arg_outdir args) "layout.json") l;
         call_render_sheet
           (path_join (arg_outdir args) "answer_sheet_solution.pdf")
           l None true (hdr ev args);
         canvas_save
           (path_join (arg_outdir args) "answer_sheet_solution.pdf") ops ],
       Raise FileNotFoundError).
Proof.
  intros Hp Hc Hbs Hrg Htex Hex.
  destruct (prepare_renders ev args l None true Hp Hc Hbs Hrg) as (ops & Hops).
  exists ops. split; [done|].
  unfold main. rewrite !run_emit. rewrite (run_lift_Ok _ l) by done.
  rewrite run_emit.
  rewrite (run_bind_Ok _ _ tt _ _ (run_do_render ev args _ l None true ops _ Hops)).
  rewrite Htex, Hex. by rewrite (run_lift_Raise _ FileNotFoundError).
Qed.

Lemma main_missing_cover_witness :
  let args := mkCli "A4" "Antworten" "" "" "" 3 "2" (Some "2,4,3") 5 false
                0 0 (35 # 10) 7 2 "A,c,1" "out" None (Some "cover.tex")
                "Exam paper" true false false in
  let ev := mkEnv "4. November 2026" "out/sheets_x" false in
  exists l ops,
    run (main ev args) []
    = ([ makedirs "out"; makedirs "scans";
         write_layout_json "out/layout.json" l;
         call_render_sheet "out/answer_sheet_solution.pdf" l None true
           (hdr ev args);
         canvas_save "out/answer_sheet_solution.pdf" ops ],
       Raise FileNotFoundError).
Proof.
  intros args ev.
  destruct (prepare args) as [l|e] eqn:Hl; [|vm_compute in Hl; discriminate].
  destruct (main_missing_cover ev args l "cover.tex" Hl) as (ops & _ & Hrun).
  - simpl. lia.
  - reflexivity.
  - simpl. discriminate.
  - reflexivity.
  - reflexivity.
  - exists l, ops. exact Hrun.
Defined.

(** ** Student sheets and the answer key *)

(** X15: the answer key shows on the solution sheet only.  Two runs that
    differ in [--answer-key] alone and both pass validation (requested
    column count of at least 1, positive box size, non-negative row gap,
    cover file there if one is given) both complete, and the sheets they
    save after the solution sheet, one per student, are the same: same
    paths and same canvas operations. *)
Theorem answer_key_on_solution_only (ev : env) (args : cli_args)
    (key : string) (l1 l2 : Layout) :
  prepare args = Ok l1 ->
  prepare (with_answer_key args key) = Ok l2 ->
  1 <= arg_columns args ->
  (0 < arg_box_size_mm args)%Q -> (0 <= arg_row_gap_mm args)%Q ->
  (arg_cover_tex args <> None -> env_cover_tex_exists ev = true) ->
  exists tr1 tr2,
    run (main ev args) [] = (tr1, Ok tt) /\
    run (main ev (with_answer_key args key)) [] = (tr2, Ok tt) /\
    tail (saves tr1) = tail (saves tr2).
Proof.
  intros H1 H2 Hc Hbs Hrg Hcover.
  destruct (run_main ev args l1 H1 Hc Hbs Hrg Hcover)
    as (tr1 & ops1 & sv1 & Hrun1 & _ & _ & Hs1 & Hall1).
  destruct (run_main ev (with_answer_key args key) l2 H2 Hc Hbs Hrg Hcover)
    as (tr2 & ops2 & sv2 & Hrun2 & _ & _ & Hs2 & Hall2).
  exists tr1, tr2. split; [done|]. split; [done|].
  rewrite Hs1, Hs2. simpl.
  rewrite (prepare_with_answer_key args key l1 l2 H1 H2) in Hall2.
  eapply Forall2_functional; [|exact Hall1|exact Hall2].
  intros sid [p1 o1] [p2 o2] [Hp1 Ho1] [Hp2 Ho2]. simpl in *.
  change (render_sheet (env_today ev) l1 (Some (fmt_03d sid)) false
            (hdr ev args) = Ok o2) in Ho2.
  congruence.
Qed.

Lemma answer_key_on_solution_only_witness :
  let args := mkCli "A4" "Antworten" "" "" "" 3 "2" (Some "2,4,3") 5 false
                0 0 (35 # 10) 7 2 "A,c,1" "out" None (Some "cover.tex")
                "Exam paper" false false false in
  let ev := mkEnv "4. November 2026" "out/sheets_x" true in
  exists tr1 tr2,
    run (main ev args) [] = (tr1, Ok tt) /\
    run (main ev (with_answer_key args "b,D,2")) [] = (tr2, Ok tt) /\
    tail (saves tr1) = tail (saves tr2).
Proof.
  intros args ev.
  assert (exists l1, prepare args = Ok l1) as [l1 Hl1]
    by (eexists; vm_compute; reflexivity).
  assert (exists l2, prepare (with_answer_key args "b,D,2") = Ok l2)
    as [l2 Hl2] by (eexists; vm_compute; reflexivity).
  apply (answer_key_on_solution_only ev args "b,D,2" l1 l2 Hl1 Hl2).
  - simpl. lia.
  - reflexivity.
  - simpl. discriminate.
  - intros _. reflexivity.
Defined.

(** ** Letters in the answer key *)

(** X16: a key entry given as a letter is always in range.  When a token
    that is not a digit string resolves (line 488) for a question with a
    non-negative option count [k], the result is the index of the label
    the token names, whatever its case, and lies in [0, k); the check of
    lines 506-508 accepts it.  Only entries given as digits can be out of
    range. *)
Theorem letter_token_in_range (per_q : list Z) (i : Z) (tok : string)
    (k ans : Z) :
  isdigit tok = false ->
  py_nth per_q i = Ok k -> 0 <= k ->
  resolve_token per_q i tok = Ok ans ->
  0 <= ans < k /\ label_of ans = upper tok /\
  check_entry per_q (i, ans) = Ok tt.
Proof.
  intros Hdig Hk Hk0. unfold resolve_token.
  rewrite Hdig, (bind_eq _ _ _ Hk). intros Hr.
  apply bind_Ok in Hr as (labels & Hl & Hr).
  apply option_labels_inv in Hl as [Hk702 ->]; [|done].
  apply py_index_inv in Hr as [Ha0 Ha].
  apply list_lookup_fmap_Some in Ha as (j & Hlab & Hj).
  apply lookup_seqZ in Hj as [-> Hlt].
  assert (ans < k) as Hak by lia.
  replace (0 + Z.of_nat (Z.to_nat ans)) with ans in Hlab by lia.
  split; [lia|]. split; [done|].
  unfold check_entry. rewrite (bind_eq _ _ _ Hk).
  destruct (Z.leb_spec 0 ans); [|lia]. destruct (Z.ltb_spec ans k); [done|lia].
Qed.

Lemma letter_token_in_range_witness :
  resolve_token [2; 4; 3] 1 "c" = Ok 2 /\
  0 <= 2 < 4 /\ label_of 2 = upper "c" /\
  check_entry [2; 4; 3] (1, 2) = Ok tt.
Proof.
  split; [reflexivity|].
  apply (letter_token_in_range [2; 4; 3] 1 "c" 4 2); [reflexivity.. | lia |].
  reflexivity.
Defined.
